(** * auto-test-generator: symbol extraction, scenario and code synthesis,
      project index and worker pool

    A shallow embedding of the Go sources of [internal/gen] (generate.go,
    augment.go, the context engine and the context-aware generator) and of the
    worker pool in [cmd/autotest/main.go].

    Conventions of the embedding:
    - a Go [string] is a [string] of bytes; the text handled here is ASCII
      (TypeScript keywords, identifiers, punctuation), and the helpers that
      Go defines on runes ([strings.TrimSpace], [strings.ToLower], the
      classes of [regexp]) are given on the ASCII range;
    - a Go [map[string]T] is a [gmap string T]; a [range] over a map visits
      the entries in an order the language leaves open, so every function
      that ranges over a map takes the order of the visit as an argument
      (a [range_order]), constrained only to be a permutation of the entries;
    - a function returning [(T, error)] returns [error + T];
    - the goroutines of the worker pool are an interleaving step relation. *)

From Stdlib Require Import Ascii NArith ZArith Lia.
From stdpp Require Import base option list strings gmap fin_maps sorting.


(** ** Bytes and the [strings] package *)

Module Strings.

Definition code (c : ascii) : N := N_of_ascii c.

Definition between (lo hi : N) (c : ascii) : bool :=
  ((lo <=? code c) && (code c <=? hi))%N.

Definition is_byte (n : N) (c : ascii) : bool := (code c =? n)%N.

(** [unicode.IsSpace] on the ASCII range: tab, newline, vertical tab, form
    feed, carriage return, space. *)
Definition isSpace (c : ascii) : bool := between 9 13 c || is_byte 32 c.

Definition nl : string := String (ascii_of_N 10) "".
Definition dquote : ascii := ascii_of_N 34.

Fixpoint HasPrefix (s p : string) : bool :=
  match p, s with
  | EmptyString, _ => true
  | String a p', String b s' => if Ascii.eqb a b then HasPrefix s' p' else false
  | String _ _, EmptyString => false
  end.

(** [CutPrefix s p]: what is left of [s] after the prefix [p]. *)
Fixpoint CutPrefix (s p : string) : option string :=
  match p, s with
  | EmptyString, _ => Some s
  | String a p', String b s' => if Ascii.eqb a b then CutPrefix s' p' else None
  | String _ _, EmptyString => None
  end.

Fixpoint Contains (s sub : string) : bool :=
  HasPrefix s sub ||
  match s with
  | EmptyString => false
  | String _ s' => Contains s' sub
  end.

(** [strings.Index]: the offset of the first occurrence. *)
Fixpoint Index (s sub : string) : option nat :=
  if HasPrefix s sub then Some 0
  else match s with
       | EmptyString => None
       | String _ s' => S <$> Index s' sub
       end.

Fixpoint mem (c : ascii) (chars : string) : bool :=
  match chars with
  | EmptyString => false
  | String a chars' => Ascii.eqb a c || mem c chars'
  end.

(** [strings.IndexAny]: the offset of the first byte of [s] that is in
    [chars]. *)
Fixpoint IndexAny (s chars : string) : option nat :=
  match s with
  | EmptyString => None
  | String a s' => if mem a chars then Some 0 else S <$> IndexAny s' chars
  end.

Fixpoint sliceTo (n : nat) (s : string) : string :=
  match n, s with
  | S n', String a s' => String a (sliceTo n' s')
  | _, _ => ""
  end.

Fixpoint sliceFrom (n : nat) (s : string) : string :=
  match n, s with
  | S n', String _ s' => sliceFrom n' s'
  | _, _ => s
  end.

Fixpoint rev_onto (s acc : string) : string :=
  match s with
  | EmptyString => acc
  | String a s' => rev_onto s' (String a acc)
  end.

Definition rev (s : string) : string := rev_onto s "".

Fixpoint TrimLeftFunc (f : ascii -> bool) (s : string) : string :=
  match s with
  | EmptyString => ""
  | String a s' => if f a then TrimLeftFunc f s' else s
  end.

Definition TrimFunc (f : ascii -> bool) (s : string) : string :=
  rev (TrimLeftFunc f (rev (TrimLeftFunc f s))).

(** [strings.TrimSpace] as it acts on ASCII text.  On text with bytes
    above 127 Go decodes runes and also trims the Unicode white space
    (U+0085, U+00A0, U+2000 to U+200A, ...); statements that depend on what
    is trimmed are made for ASCII text. *)
Definition TrimSpace (s : string) : string := TrimFunc isSpace s.

(** [strings.Trim s cutset] *)
Definition Trim (s cutset : string) : string :=
  TrimFunc (fun c => mem c cutset) s.

Definition HasSuffix (s suf : string) : bool := HasPrefix (rev s) (rev suf).

Definition TrimSuffix (s suf : string) : string :=
  if HasSuffix s suf then sliceTo (String.length s - String.length suf) s else s.

Definition TrimPrefix (s p : string) : string :=
  match CutPrefix s p with Some r => r | None => s end.

(** [strings.Split s sep] for a separator of one byte (the sources split on
    a comma and on a newline only). *)
Fixpoint split_onto (sep : ascii) (s : string) (cur : string) : list string :=
  match s with
  | EmptyString => [rev cur]
  | String a s' =>
      if Ascii.eqb a sep then rev cur :: split_onto sep s' ""
      else split_onto sep s' (String a cur)
  end.

Definition Split (s : string) (sep : ascii) : list string := split_onto sep s "".

Definition lower (c : ascii) : ascii :=
  if between 65 90 c then ascii_of_N (code c + 32) else c.

(** [strings.ToLower] as it acts on ASCII text: the bytes A to Z are
    lowered.  On text with bytes above 127 Go maps rune by rune (U+0130
    becomes i); statements that depend on it are made for ASCII text. *)
Fixpoint ToLower (s : string) : string :=
  match s with
  | EmptyString => ""
  | String a s' => String (lower a) (ToLower s')
  end.

(** [strings.ReplaceAll] of one byte by one byte. *)
Fixpoint ReplaceAll (s : string) (old new : ascii) : string :=
  match s with
  | EmptyString => ""
  | String a s' => String (if Ascii.eqb a old then new else a) (ReplaceAll s' old new)
  end.

(** [strings.Builder]: the text written so far is the concatenation of the
    pieces. *)
Definition cat (pieces : list string) : string :=
  foldr String.append "" pieces.

(** The [sep]-separated join written by the loops
    [for i, x := range xs { if i > 0 { write(sep) }; write(x) }]. *)
Fixpoint join (sep : string) (xs : list string) : string :=
  match xs with
  | [] => ""
  | [x] => x
  | x :: xs' => x +:+ sep +:+ join sep xs'
  end.

End Strings.

(** ** The fragment of [regexp] the extractor uses

    The four patterns of [extractExports] are built from literals, greedy
    repetitions of a character class, greedy optional groups, one
    alternation and capture groups.  Go's [regexp] returns the leftmost
    match and, among the matches that start there, the one a backtracking
    search finds first; [match_k] is that backtracking search, written with
    a continuation for what follows the sub-pattern. *)

Module Regexp.
Import Strings.

Inductive regex : Type :=
| Lit (s : string)
| Star (c : ascii -> bool)
| Plus (c : ascii -> bool)
| Opt (r : regex)
| Alt (r1 r2 : regex)
| Seq (r1 r2 : regex)
| Cap (i : nat) (r : regex).

(** [\s] of RE2: [\t\n\f\r ] (no vertical tab). *)
Definition cls_space (c : ascii) : bool :=
  is_byte 9 c || is_byte 10 c || is_byte 12 c || is_byte 13 c || is_byte 32 c.

(** [\w] of RE2: [0-9A-Za-z_]. *)
Definition cls_word (c : ascii) : bool :=
  between 48 57 c || between 65 90 c || between 97 122 c || is_byte 95 c.

(** the class of every byte but the closing parenthesis *)
Definition cls_not_rparen (c : ascii) : bool := negb (is_byte 41 c).

Definition captures : Type := list (nat * string).

Fixpoint star_k {A} (c : ascii -> bool) (s : string)
    (k : string -> option A) : option A :=
  match s with
  | String a s' =>
      if c a then
        match star_k c s' k with
        | Some r => Some r
        | None => k s
        end
      else k s
  | EmptyString => k s
  end.

Fixpoint match_k {A} (r : regex) (s : string) (cs : captures)
    (k : string -> captures -> option A) : option A :=
  match r with
  | Lit l =>
      match CutPrefix s l with
      | Some s' => k s' cs
      | None => None
      end
  | Star c => star_k c s (fun s' => k s' cs)
  | Plus c =>
      match s with
      | String a s' => if c a then star_k c s' (fun s'' => k s'' cs) else None
      | EmptyString => None
      end
  | Opt r1 =>
      match match_k r1 s cs k with
      | Some x => Some x
      | None => k s cs
      end
  | Alt r1 r2 =>
      match match_k r1 s cs k with
      | Some x => Some x
      | None => match_k r2 s cs k
      end
  | Seq r1 r2 => match_k r1 s cs (fun s' cs' => match_k r2 s' cs' k)
  | Cap i r1 =>
      match_k r1 s cs
        (fun s' cs' => k s' ((i, sliceTo (String.length s - String.length s') s) :: cs'))
  end.

(** The text of group [i]; a group that took no part in the match is the
    empty string, as in [FindAllStringSubmatch]. *)
Fixpoint group (i : nat) (cs : captures) : string :=
  match cs with
  | [] => ""
  | (j, t) :: cs' => if Nat.eqb i j then t else group i cs'
  end.

(** One match anchored at the start of [s]: the list
    [[match[0]; match[1]; ...; match[n]]] and the number of bytes matched. *)
Definition match_here (r : regex) (n : nat) (s : string) : option (list string * nat) :=
  match_k r s []
    (fun s' cs =>
       let len := String.length s - String.length s' in
       Some (sliceTo len s :: map (fun i => group i cs) (seq 1 n), len)).

(** [FindAllStringSubmatch(s, -1)]: successive non-overlapping matches,
    leftmost first, each with the offset it starts at (the library finds
    the offsets and slices the text).  [pos] is the offset of [s] in the
    whole text and [skip] counts the bytes of the previous match that are
    still to be passed over. *)
Fixpoint find_all (r : regex) (n : nat) (s : string) (skip pos : nat)
    : list (nat * list string) :=
  match skip with
  | S skip' =>
      match s with
      | EmptyString => []
      | String _ s' => find_all r n s' skip' (S pos)
      end
  | O =>
      match match_here r n s with
      | Some (m, len) =>
          (pos, m) :: match s with
                      | EmptyString => []
                      | String _ s' => find_all r n s' (pred len) (S pos)
                      end
      | None =>
          match s with
          | EmptyString => []
          | String _ s' => find_all r n s' 0 (S pos)
          end
      end
  end.

Definition FindAllStringSubmatch (r : regex) (n : nat) (s : string) : list (list string) :=
  map snd (find_all r n s 0 0).

Definition seqs (rs : list regex) : regex := foldr Seq (Lit "") rs.

End Regexp.

(** ** generate.go: the symbol extractor *)

Import Strings Regexp.

Record exportedSymbol : Type := mkSymbol {
  name : string;
  kind : string;
  isAsync : bool;
  params : list string;
  isDefault : bool
}.

(** funcPattern, its pieces set apart:
    export \s+ (?:async\s+)? function \s+ (\w+) \s* \( ( [^)]* ) \) *)
Definition funcPattern : regex :=
  seqs [Lit "export"; Plus cls_space; Opt (Seq (Lit "async") (Plus cls_space));
        Lit "function"; Plus cls_space; Cap 1 (Plus cls_word); Star cls_space;
        Lit "("; Cap 2 (Star cls_not_rparen); Lit ")"].

(** constPattern, its pieces set apart:
    export \s+ const \s+ (\w+) \s* = \s* (?:async \s* )? \( ( [^)]* ) \) \s* => *)
Definition constPattern : regex :=
  seqs [Lit "export"; Plus cls_space; Lit "const"; Plus cls_space;
        Cap 1 (Plus cls_word); Star cls_space; Lit "="; Star cls_space;
        Opt (Seq (Lit "async") (Star cls_space));
        Lit "("; Cap 2 (Star cls_not_rparen); Lit ")"; Star cls_space; Lit "=>"].

(** classPattern: export \s+ class \s+ (\w+) *)
Definition classPattern : regex :=
  seqs [Lit "export"; Plus cls_space; Lit "class"; Plus cls_space;
        Cap 1 (Plus cls_word)].

(** defaultPattern:
    export \s+ default \s+ (?:function|class)? \s* (\w+)? *)
Definition defaultPattern : regex :=
  seqs [Lit "export"; Plus cls_space; Lit "default"; Plus cls_space;
        Opt (Alt (Lit "function") (Lit "class")); Star cls_space;
        Opt (Cap 1 (Plus cls_word))].

Definition sub (m : list string) (i : nat) : string := nth i m "".

Definition parseParam (param : string) : string :=
  let param := TrimSpace param in
  let param := match IndexAny param ":=" with
               | Some idx => sliceTo idx param
               | None => param
               end in
  TrimSpace param.

Definition parseParams (paramStr : string) : list string :=
  if String.eqb (TrimSpace paramStr) "" then []
  else filter (fun p => p ≠ "") (map parseParam (Split paramStr ",")).

Definition funcSymbol (m : list string) : exportedSymbol :=
  {| name := sub m 1; kind := "function"; isAsync := Contains (sub m 0) "async";
     params := parseParams (sub m 2); isDefault := false |}.

Definition constSymbol (m : list string) : exportedSymbol :=
  {| name := sub m 1; kind := "const"; isAsync := Contains (sub m 0) "async";
     params := parseParams (sub m 2); isDefault := false |}.

Definition classSymbol (m : list string) : exportedSymbol :=
  {| name := sub m 1; kind := "class"; isAsync := false;
     params := []; isDefault := false |}.

Definition defaultSymbol (m : list string) : exportedSymbol :=
  {| name := if String.eqb (sub m 1) "" then "default" else sub m 1;
     kind := "default"; isAsync := false; params := []; isDefault := true |}.

Definition extractExports (code : string) : list exportedSymbol :=
  map funcSymbol (FindAllStringSubmatch funcPattern 2 code)
  ++ map constSymbol (FindAllStringSubmatch constPattern 2 code)
  ++ map classSymbol (FindAllStringSubmatch classPattern 1 code)
  ++ match FindAllStringSubmatch defaultPattern 1 code with
     | m :: _ => [defaultSymbol m]
     | [] => []
     end.

(** [GenerateTest]'s renderer. *)

Definition generateFunctionTests (sym : exportedSymbol) : string :=
  cat [
    "  it('should be defined', () => {" +:+ nl;
    "    expect(" +:+ name sym +:+ ").toBeDefined();" +:+ nl;
    "  });" +:+ nl +:+ nl;
    if (0 <? length (params sym))%nat then
      cat [
        "  it('should handle basic input', () => {" +:+ nl;
        "    // TODO: Replace with actual test data" +:+ nl;
        "    const result = " +:+ name sym +:+ "(";
        join ", " (map (fun _ => "null") (params sym));
        ");" +:+ nl;
        "    expect(result).toBeDefined();" +:+ nl;
        "  });" +:+ nl +:+ nl ]
    else "";
    if isAsync sym then
      cat [
        "  it('should handle async operations', async () => {" +:+ nl;
        "    // TODO: Replace with actual test data" +:+ nl;
        "    const result = await " +:+ name sym +:+ "(";
        join ", " (map (fun _ => "null") (params sym));
        ");" +:+ nl;
        "    expect(result).toBeDefined();" +:+ nl;
        "  });" +:+ nl +:+ nl ]
    else "";
    "  it('should handle edge cases', () => {" +:+ nl;
    "    // TODO: Add edge case tests" +:+ nl;
    "    expect(true).toBe(true);" +:+ nl;
    "  });" +:+ nl ].

Definition generateClassTests (sym : exportedSymbol) : string :=
  cat [
    "  it('should be instantiable', () => {" +:+ nl;
    "    const instance = new " +:+ name sym +:+ "();" +:+ nl;
    "    expect(instance).toBeDefined();" +:+ nl;
    "  });" +:+ nl +:+ nl;
    "  it('should have expected methods', () => {" +:+ nl;
    "    const instance = new " +:+ name sym +:+ "();" +:+ nl;
    "    // TODO: Add method existence checks" +:+ nl;
    "    expect(instance).toBeDefined();" +:+ nl;
    "  });" +:+ nl ].

Definition generateDefaultTests (sym : exportedSymbol) : string :=
  cat [
    "  it('should be defined', () => {" +:+ nl;
    "    expect(" +:+ name sym +:+ ").toBeDefined();" +:+ nl;
    "  });" +:+ nl ].

Definition generateTestForSymbol (sym : exportedSymbol) : string :=
  cat [
    "describe('" +:+ name sym +:+ "', () => {" +:+ nl;
    if String.eqb (kind sym) "function" || String.eqb (kind sym) "const"
    then generateFunctionTests sym
    else if String.eqb (kind sym) "class" then generateClassTests sym
    else if String.eqb (kind sym) "default" then generateDefaultTests sym
    else "";
    "});" +:+ nl ].

Definition generateTestCode (tsPath : string) (exports : list exportedSymbol)
    (sourceCode testSyntax : string) : string :=
  let importPath := TrimSuffix (TrimSuffix tsPath ".ts") ".tsx" in
  cat [
    "/**" +:+ nl;
    " * Auto-generated test file" +:+ nl;
    " * Source: " +:+ tsPath +:+ nl;
    " */" +:+ nl +:+ nl;
    "import { ";
    join ", " (map name exports);
    " } from '../" +:+ importPath +:+ "';" +:+ nl +:+ nl;
    if String.eqb testSyntax "vitest"
    then "import { describe, it, expect, beforeEach, afterEach } from 'vitest';" +:+ nl +:+ nl
    else "import { describe, it, expect, beforeEach, afterEach } from '@jest/globals';" +:+ nl +:+ nl;
    cat (map (fun exp => generateTestForSymbol exp +:+ nl) exports) ].

(** Go's [error] values are kept as their messages. *)
Definition error : Type := string.

Definition errNoExports (tsPath : string) : error :=
  "no exported symbols found in " +:+ tsPath.

Definition GenerateTest (tsPath code framework : string) : error + string :=
  let exports := extractExports code in
  if (length exports =? 0)%nat then inl (errNoExports tsPath)
  else
    let testSyntax := if String.eqb framework "vitest" then "vitest" else "jest" in
    inr (generateTestCode tsPath exports code testSyntax).

Definition add_ts : string :=
  "export function add(a: number, b: number): number { return a+b }".

(** ** Ranging over a Go map

    [for k, v := range m] visits every entry of [m] once, in an order that
    Go does not fix (and changes from one run to the next).  A
    [range_order] picks the order of one visit; it is [fair] when what it
    returns is a permutation of the entries, which is all Go guarantees. *)

Definition range_order (V : Type) : Type := gmap string V → list (string * V).

Definition fair {V} (ord : range_order V) : Prop :=
  ∀ m, ord m ≡ₚ map_to_list m.

Definition ascending {V} : range_order V := map_to_list.
Definition descending {V} : range_order V := λ m, reverse (map_to_list m).

(** ** augment.go: analysis model, scenarios and their renderer *)

#[local] Set Warnings "-register-all".

(** Go's [interface{}] values that reach the renderer. A [float64] (what
    [encoding/json] decodes a number to) is kept as the text that the verb
    [%v] of [fmt] prints for it. *)
Inductive value : Type :=
| VNil
| VString (s : string)
| VBool (b : bool)
| VInt (n : Z)
| VFloat64 (shown : string)
| VSlice (xs : list value)
| VMap (kvs : list (string * value)).

(** Go: [Parameter]. *)
Record Param : Type := mkParam {
  p_Name : string;
  p_Type : string;
  p_Optional : bool;
  p_Default : string
}.

Record ExportedFunction : Type := mkExported {
  Name : string;
  Type_ : string;
  IsAsync : bool;
  Parameters : list Param;
  ReturnType : string;
  Description : string
}.

Record TestScenario : Type := mkScenario {
  ts_Name : string;
  ts_Description : string;
  ts_Inputs : gmap string value;
  ts_Expected : value;
  ts_EdgeCase : bool
}.

Record AugmentCodeAnalysis : Type := mkAnalysis {
  an_FilePath : string;
  an_Exports : list ExportedFunction;
  an_Dependencies : list string;
  an_Complexity : string;
  an_Description : string;
  an_TestScenarios : list TestScenario
}.

(** The conversion written twice in the sources
    ([ExportedFunction{Name: sym.name, Type: sym.kind, IsAsync: sym.isAsync}]):
    the parameter names of the symbol are not carried over. *)
Definition toExported (sym : exportedSymbol) : ExportedFunction :=
  {| Name := name sym; Type_ := kind sym; IsAsync := isAsync sym;
     Parameters := []; ReturnType := ""; Description := "" |}.

Definition dependencyOf (line : string) : option string :=
  let line := TrimSpace line in
  if HasPrefix line "import " then
    match Index line "from" with
    | Some idx =>
        let rest := sliceFrom (idx + 4) line in
        let rest := TrimSpace rest in
        let rest := Trim rest (String "'" (String dquote "")) in
        if String.eqb rest "" then None else Some rest
    | None => None
    end
  else None.

Definition extractDependencies (code : string) : list string :=
  omap dependencyOf (Split code (ascii_of_N 10)).

Definition generateSampleValue (typeStr : string) : value :=
  let typeStr := ToLower typeStr in
  if Contains typeStr "string" then VString "sample"
  else if Contains typeStr "number" then VInt 42
  else if Contains typeStr "boolean" then VBool true
  else if Contains typeStr "array" then VSlice []
  else if Contains typeStr "object" then VMap []
  else VNil.

Definition generateSampleInputs (params : list Param) : gmap string value :=
  foldl (λ inputs param, <[p_Name param := generateSampleValue (p_Type param)]> inputs)
        ∅ params.

Definition generateBasicScenarios (exp : ExportedFunction) : list TestScenario :=
  [ {| ts_Name := Name exp +:+ " - happy path";
       ts_Description := "Test " +:+ Name exp +:+ " with valid inputs";
       ts_Inputs := generateSampleInputs (Parameters exp);
       ts_Expected := VString "success";
       ts_EdgeCase := false |} ]
  ++ (if (0 <? length (Parameters exp))%nat then
        [ {| ts_Name := Name exp +:+ " - null input";
             ts_Description := "Test " +:+ Name exp +:+ " with null input";
             ts_Inputs := {[ "input" := VNil ]};
             ts_Expected := VString "error or default";
             ts_EdgeCase := true |} ]
      else [])
  ++ [ {| ts_Name := Name exp +:+ " - empty input";
          ts_Description := "Test " +:+ Name exp +:+ " with empty input";
          ts_Inputs := ∅;
          ts_Expected := VString "error or default";
          ts_EdgeCase := true |} ]
  ++ (if IsAsync exp then
        [ {| ts_Name := Name exp +:+ " - async resolution";
             ts_Description := "Test " +:+ Name exp +:+ " async behavior";
             ts_Inputs := generateSampleInputs (Parameters exp);
             ts_Expected := VString "resolved promise";
             ts_EdgeCase := false |} ]
      else []).

Definition analyzeBasic (filePath code : string) : AugmentCodeAnalysis :=
  let exports := map toExported (extractExports code) in
  {| an_FilePath := filePath;
     an_Exports := exports;
     an_Dependencies := extractDependencies code;
     an_Complexity := "medium";
     an_Description := "Auto-analyzed module";
     an_TestScenarios := concat (map generateBasicScenarios exports) |}.

Definition getTypeofValue (typeStr : string) : string :=
  let typeStr := ToLower typeStr in
  if String.eqb typeStr "function" then "function"
  else if String.eqb typeStr "class" then "function"
  else "object".

Definition formatValue (val : value) : string :=
  match val with
  | VNil => "null"
  | VString v => "'" +:+ v +:+ "'"
  | VBool v => if v then "true" else "false"
  | VFloat64 shown => shown
  | VSlice _ => "[]"
  | VMap _ => "{}"
  | VInt _ => "null"
  end.

Definition generateTestCase (ord : range_order value) (exp : ExportedFunction)
    (scenario : TestScenario) (framework : string) : string :=
  let testName :=
    if ts_EdgeCase scenario then "‚úì [EDGE CASE] " +:+ ts_Name scenario
    else ts_Name scenario in
  cat [
    "  it('" +:+ testName +:+ "', ";
    if IsAsync exp then "async " else "";
    "() => {" +:+ nl;
    if (0 <? size (ts_Inputs scenario))%nat then
      cat [
        "    // Arrange" +:+ nl;
        cat (map (λ kv, "    const " +:+ kv.1 +:+ " = " +:+ formatValue kv.2 +:+ ";" +:+ nl)
                 (ord (ts_Inputs scenario)));
        nl ]
    else "";
    "    // Act" +:+ nl;
    if IsAsync exp then "    const result = await " +:+ Name exp +:+ "("
    else "    const result = " +:+ Name exp +:+ "(";
    join ", " (map p_Name (Parameters exp));
    ");" +:+ nl +:+ nl;
    "    // Assert" +:+ nl;
    "    expect(result).toBeDefined();" +:+ nl;
    "    // TODO: Add specific assertions based on expected behavior" +:+ nl;
    "  });" +:+ nl ].

Definition generateTestsForExport (ord : range_order value) (exp : ExportedFunction)
    (scenarios : list TestScenario) (framework : string) : string :=
  cat [
    "describe('" +:+ Name exp +:+ "', () => {" +:+ nl;
    "  let result: any;" +:+ nl +:+ nl;
    cat (map (λ scenario, generateTestCase ord exp scenario framework +:+ nl)
             (filter (λ scenario, Contains (ts_Name scenario) (Name exp) = true) scenarios));
    "  it('should be defined', () => {" +:+ nl;
    "    expect(" +:+ Name exp +:+ ").toBeDefined();" +:+ nl;
    "  });" +:+ nl +:+ nl;
    "  it('should be a " +:+ Type_ exp +:+ "', () => {" +:+ nl;
    "    expect(typeof " +:+ Name exp +:+ ").toBe('" +:+ getTypeofValue (Type_ exp) +:+ "');" +:+ nl;
    "  });" +:+ nl;
    "});" +:+ nl ].

(** [filepath.Ext]: the suffix of the last element of the path that starts
    at its last dot. *)
Fixpoint ext_scan (r acc : string) : string :=
  match r with
  | EmptyString => ""
  | String c r' =>
      if is_byte 47 c then ""
      else if is_byte 46 c then String c acc
      else ext_scan r' (String c acc)
  end.

Definition Ext (path : string) : string := ext_scan (rev path) "".

Definition generateTestCodeFromAnalysis (ord : range_order value) (tsPath : string)
    (analysis : AugmentCodeAnalysis) (framework : string) : string :=
  let importPath := TrimPrefix (TrimSuffix tsPath (Ext tsPath)) "./" in
  cat [
    "/**" +:+ nl;
    " * Auto-generated test file (powered by Augment)" +:+ nl;
    " * Source: " +:+ tsPath +:+ nl;
    " * Description: " +:+ an_Description analysis +:+ nl;
    " */" +:+ nl +:+ nl;
    "import { ";
    join ", " (map Name (an_Exports analysis));
    " } from '../" +:+ importPath +:+ "';" +:+ nl +:+ nl;
    if String.eqb framework "vitest"
    then "import { describe, it, expect, beforeEach, afterEach, vi } from 'vitest';" +:+ nl +:+ nl
    else "import { describe, it, expect, beforeEach, afterEach, jest } from '@jest/globals';" +:+ nl +:+ nl;
    cat (map (λ exp, generateTestsForExport ord exp (an_TestScenarios analysis) framework +:+ nl)
             (an_Exports analysis)) ].

(** What the external [augment] program did in one call of
    [AnalyzeWithAugment]; the program itself is outside the sources. *)
Inductive augmentRun : Type :=
| LookPathFails (err : string)
| CreateTempFails (err : string)
| WriteTempFails (err : string)
| CommandFails
| OutputNotJSON
| OutputParsed (analysis : AugmentCodeAnalysis).

Definition AnalyzeWithAugment (run : augmentRun) (filePath code projectRoot : string)
    : error + AugmentCodeAnalysis :=
  match run with
  | LookPathFails err => inl ("augment CLI not found in PATH: " +:+ err)
  | CreateTempFails err => inl ("failed to create temp file: " +:+ err)
  | WriteTempFails err => inl ("failed to write temp file: " +:+ err)
  | CommandFails => inr (analyzeBasic filePath code)
  | OutputNotJSON => inr (analyzeBasic filePath code)
  | OutputParsed analysis =>
      inr {| an_FilePath := filePath;
             an_Exports := an_Exports analysis;
             an_Dependencies := an_Dependencies analysis;
             an_Complexity := an_Complexity analysis;
             an_Description := an_Description analysis;
             an_TestScenarios := an_TestScenarios analysis |}
  end.

Definition GenerateTestWithAugment (run : augmentRun) (ord : range_order value)
    (tsPath code framework projectRoot : string) : error + string :=
  match AnalyzeWithAugment run tsPath code projectRoot with
  | inl err => inl ("augment analysis failed: " +:+ err)
  | inr analysis =>
      if (length (an_Exports analysis) =? 0)%nat then inl (errNoExports tsPath)
      else inr (generateTestCodeFromAnalysis ord tsPath analysis framework)
  end.

(** ** The [path/filepath] functions the context engine calls (Unix paths) *)

Module Filepath.

Definition cleanStep (rooted : bool) (stack : list string) (comp : string) : list string :=
  if String.eqb comp "" || String.eqb comp "." then stack
  else if String.eqb comp ".." then
    match stack with
    | top :: below => if String.eqb top ".." then comp :: stack else below
    | [] => if rooted then [] else [comp]
    end
  else comp :: stack.

(** [filepath.Clean]; [stack] holds the elements kept so far, last first. *)
Definition Clean (path : string) : string :=
  if String.eqb path "" then "."
  else
    let rooted := HasPrefix path "/" in
    let stack := foldl (cleanStep rooted) [] (Split path "/") in
    let body := join "/" (reverse stack) in
    if rooted then "/" +:+ body
    else if String.eqb body "" then "." else body.

(** [filepath.Join] of two elements. *)
Definition Join (a b : string) : string :=
  if String.eqb a "" then (if String.eqb b "" then "" else Clean b)
  else if String.eqb b "" then Clean a
  else Clean (a +:+ "/" +:+ b).

(** The prefix of [path] up to and including its last slash. *)
Fixpoint upToLastSlash (path : string) : string :=
  match path with
  | EmptyString => ""
  | String c path' =>
      if Contains path "/" then String c (upToLastSlash path') else ""
  end.

(** [filepath.Dir] *)
Definition Dir (path : string) : string := Clean (upToLastSlash path).

End Filepath.

(** ** The context engine: project index and its read operations *)

Record AugmentContextEngine : Type := mkEngine {
  ProjectRoot : string;
  IndexedCode : gmap string string;
  Exports : gmap string (list ExportedFunction);
  Dependencies : gmap string (list string);
  Initialized : bool
}.

Definition NewAugmentContextEngine (projectRoot : string) : AugmentContextEngine :=
  {| ProjectRoot := projectRoot; IndexedCode := ∅; Exports := ∅;
     Dependencies := ∅; Initialized := false |}.

(** The orders in which one call ranges over the maps it meets. *)
Record rangeOrders : Type := mkOrders {
  ord_code : range_order string;
  ord_exports : range_order (list ExportedFunction);
  ord_deps : range_order (list string);
  ord_scores : range_order nat
}.

Definition fairOrders (ro : rangeOrders) : Prop :=
  fair (ord_code ro) ∧ fair (ord_exports ro) ∧ fair (ord_deps ro) ∧ fair (ord_scores ro).

(** What [filepath.Walk] finds under the project root: a file with the
    outcome of [os.ReadFile] on it, a directory with its entries in the
    order [Walk] visits them, or an entry for which [Walk] hands the
    callback an error. *)
Inductive fsEntry : Type :=
| File (fname : string) (content : option string)
| Dir (dname : string) (entries : list fsEntry)
| Broken (bname : string) (err : error).

Definition entryName (e : fsEntry) : string :=
  match e with
  | File n _ => n
  | Dir n _ => n
  | Broken n _ => n
  end.

(** The directories for which the callback answers [filepath.SkipDir]. *)
Definition skipsDir (path : string) : bool :=
  Contains path "node_modules" || Contains path ".git"
  || Contains path "/build/" || Contains path "/dist/".

(** The files the callback passes over before reading them. *)
Definition skipsFile (path : string) : bool :=
  (negb (HasSuffix path ".ts") && negb (HasSuffix path ".tsx"))
  || HasSuffix path ".d.ts"
  || Contains path ".test." || Contains path ".spec.".

(** The body of the callback for a file that was read: [relPath] is
    [filepath.Rel(ace.ProjectRoot, path)]. *)
Definition indexFile (relPath content : string) (ace : AugmentContextEngine)
    : AugmentContextEngine :=
  {| ProjectRoot := ProjectRoot ace;
     IndexedCode := <[relPath := content]> (IndexedCode ace);
     Exports := <[relPath := map toExported (extractExports content)]> (Exports ace);
     Dependencies := <[relPath := extractDependencies content]> (Dependencies ace);
     Initialized := Initialized ace |}.

Definition relString (rel : list string) : string :=
  match rel with
  | [] => "."
  | _ => join "/" rel
  end.

(** [filepath.Walk] with the callback of [IndexProject]: [path] is the path
    handed to the callback and [rel] the names below the root that lead to
    the entry.  The first error ends the walk; what was stored before it
    stays stored. *)
Fixpoint walk (e : fsEntry) (path : string) (rel : list string)
    (ace : AugmentContextEngine) : AugmentContextEngine * option error :=
  match e with
  | Broken _ err => (ace, Some err)
  | File _ content =>
      if skipsFile path then (ace, None)
      else match content with
           | None => (ace, None)
           | Some text => (indexFile (relString rel) text ace, None)
           end
  | Dir _ entries =>
      if skipsDir path then (ace, None)
      else
        (fix each (es : list fsEntry) (ace : AugmentContextEngine) :=
           match es with
           | [] => (ace, None)
           | e' :: es' =>
               match walk e' (Filepath.Join path (entryName e'))
                          (rel ++ [entryName e']) ace with
               | (ace', Some err) => (ace', Some err)
               | (ace', None) => each es' ace'
               end
           end) entries ace
  end.

Definition setInitialized (ace : AugmentContextEngine) : AugmentContextEngine :=
  {| ProjectRoot := ProjectRoot ace; IndexedCode := IndexedCode ace;
     Exports := Exports ace; Dependencies := Dependencies ace;
     Initialized := true |}.

Definition IndexProject (root : fsEntry) (ace : AugmentContextEngine)
    : AugmentContextEngine * option error :=
  match walk root (ProjectRoot ace) [] ace with
  | (ace', Some err) => (ace', Some ("failed to index project: " +:+ err))
  | (ace', None) => (setInitialized ace', None)
  end.

Definition resolveExts : list string := [".ts"; ".tsx"; "/index.ts"; "/index.tsx"].

(** The inner loop of [GetRelatedCode]: the first candidate that is indexed. *)
Fixpoint firstIndexed (code : gmap string string) (resolvedPath : string)
    (exts : list string) : option (string * string) :=
  match exts with
  | [] => None
  | ext :: exts' =>
      match code !! (resolvedPath +:+ ext) with
      | Some text => Some (resolvedPath +:+ ext, text)
      | None => firstIndexed code resolvedPath exts'
      end
  end.

Definition GetRelatedCode (ace : AugmentContextEngine) (targetFile : string)
    : gmap string string :=
  if negb (Initialized ace) then ∅
  else
    let targetDeps := default [] (Dependencies ace !! targetFile) in
    if (length targetDeps =? 0)%nat then ∅
    else
      foldl (λ related dep,
               if HasPrefix dep "." then
                 let dir := Filepath.Dir targetFile in
                 let resolvedPath := Filepath.Clean (Filepath.Join dir dep) in
                 match firstIndexed (IndexedCode ace) resolvedPath resolveExts with
                 | Some (searchPath, text) => <[searchPath := text]> related
                 | None => related
                 end
               else related)
            ∅ targetDeps.

Definition GetExportContext (ro : rangeOrders) (ace : AugmentContextEngine)
    (targetFile : string) : gmap string (list ExportedFunction) :=
  if negb (Initialized ace) then ∅
  else
    let related := GetRelatedCode ace targetFile in
    foldl (λ context kv,
             match Exports ace !! kv.1 with
             | Some exports => <[kv.1 := exports]> context
             | None => context
             end)
          ∅ (ord_code ro related).

(** The values of the statistics map: an [int], or the [float64] quotient
    of two [int]s. *)
Inductive statValue : Type :=
| StatInt (n : nat)
| StatQuotient (num den : nat).

Definition GetProjectStats (ro : rangeOrders) (ace : AugmentContextEngine)
    : gmap string statValue :=
  if negb (Initialized ace) then ∅
  else
    let fileCount := size (IndexedCode ace) in
    let totalExports :=
      foldl (λ n kv, n + length kv.2) 0 (ord_exports ro (Exports ace)) in
    let totalDependencies :=
      foldl (λ n kv, n + length kv.2) 0 (ord_deps ro (Dependencies ace)) in
    <["avg_exports_per_file" := StatQuotient totalExports fileCount]>
      (<["total_dependencies" := StatInt totalDependencies]>
         (<["total_exports" := StatInt totalExports]>
            (<["files_indexed" := StatInt fileCount]> ∅))).

(** [exportToFiles[exp.Name] = append(exportToFiles[exp.Name], filePath)] *)
Definition addOwner (filePath : string) (exportToFiles : gmap string (list string))
    (exp : ExportedFunction) : gmap string (list string) :=
  <[Name exp := default [] (exportToFiles !! Name exp) ++ [filePath]]> exportToFiles.

(** [similarFiles[file]++] *)
Definition bump (similarFiles : gmap string nat) (file : string) : gmap string nat :=
  <[file := S (default 0 (similarFiles !! file))]> similarFiles.

(** The last loop of [FindSimilarFiles]: append, then stop once [limit]
    files are held. *)
Fixpoint firstFiles (files : list string) (result : list string) (limit : Z)
    : list string :=
  match files with
  | [] => result
  | file :: files' =>
      let result := result ++ [file] in
      if (limit <=? Z.of_nat (length result))%Z then result
      else firstFiles files' result limit
  end.

Definition exportOwners (ro : rangeOrders) (ace : AugmentContextEngine)
    (targetFile : string) : gmap string (list string) :=
  foldl (λ exportToFiles kv,
           if String.eqb kv.1 targetFile then exportToFiles
           else foldl (addOwner kv.1) exportToFiles kv.2)
        ∅ (ord_exports ro (Exports ace)).

Definition similarScores (ro : rangeOrders) (ace : AugmentContextEngine)
    (targetFile : string) : gmap string nat :=
  let exportToFiles := exportOwners ro ace targetFile in
  foldl (λ similarFiles targetExp,
           match exportToFiles !! Name targetExp with
           | Some files => foldl bump similarFiles files
           | None => similarFiles
           end)
        ∅ (default [] (Exports ace !! targetFile)).

Definition FindSimilarFiles (ro : rangeOrders) (ace : AugmentContextEngine)
    (targetFile : string) (limit : Z) : list string :=
  if negb (Initialized ace) || (limit <=? 0)%Z then []
  else
    let targetExports := default [] (Exports ace !! targetFile) in
    if (length targetExports =? 0)%nat then []
    else
      let similarFiles := similarScores ro ace targetFile in
      firstFiles (map fst (ord_scores ro similarFiles)) [] limit.

(** The values stored in the map of [GetFileContext]. *)
Inductive ctxValue : Type :=
| CtxFile (path : string)
| CtxExports (exports : list ExportedFunction)
| CtxDependencies (deps : list string)
| CtxRelated (related : gmap string string)
| CtxSimilar (files : list string).

Definition GetFileContext (ro : rangeOrders) (ace : AugmentContextEngine)
    (targetFile : string) : gmap string ctxValue :=
  if negb (Initialized ace) then ∅
  else
    <["similar_files" := CtxSimilar (FindSimilarFiles ro ace targetFile 3)]>
      (<["related_files" := CtxRelated (GetRelatedCode ace targetFile)]>
         (<["dependencies" := CtxDependencies (default [] (Dependencies ace !! targetFile))]>
            (<["exports" := CtxExports (default [] (Exports ace !! targetFile))]>
               (<["file" := CtxFile targetFile]> ∅)))).

(** ** The context-aware generator *)

Record ContextAwareTestGenerator : Type := mkGenerator {
  ContextEngine : AugmentContextEngine;
  Framework : string
}.

Definition generateImports (filePath : string) (exports : list ExportedFunction) : string :=
  cat [
    "import { ";
    join ", " (map Name exports);
    " } from '../" +:+ TrimSuffix filePath ".ts" +:+ "';" +:+ nl ].

Definition generateFrameworkImports (ctg : ContextAwareTestGenerator) : string :=
  if String.eqb (Framework ctg) "vitest"
  then "import { describe, it, expect, beforeEach, afterEach, vi } from 'vitest';"
  else "import { describe, it, expect, beforeEach, afterEach, jest } from '@jest/globals';".

Definition generateMockSetup (ord : range_order string) (relatedFiles : gmap string string)
    : string :=
  cat [
    "// Mock setup for related dependencies" +:+ nl;
    cat (map (λ kv, "// jest.mock('../" +:+ TrimSuffix kv.1 ".ts" +:+ "');" +:+ nl)
             (ord relatedFiles)) ].

Definition generateSampleInput (typeStr : string) : string :=
  let typeStr := ToLower typeStr in
  if Contains typeStr "string" then "'sample'"
  else if Contains typeStr "number" then "42"
  else if Contains typeStr "boolean" then "true"
  else if Contains typeStr "array" then "[]"
  else if Contains typeStr "object" then "{}"
  else "null".

Definition arrangeLines (exp : ExportedFunction) : string :=
  cat (map (λ param, "    const " +:+ p_Name param +:+ " = "
                       +:+ generateSampleInput (p_Type param) +:+ ";" +:+ nl)
           (Parameters exp)).

Definition generateHappyPathTest (exp : ExportedFunction) : string :=
  cat [
    "  it('should work with valid inputs', () => {" +:+ nl;
    "    // Arrange" +:+ nl;
    arrangeLines exp;
    nl +:+ "    // Act" +:+ nl;
    "    const result = " +:+ Name exp +:+ "(";
    join ", " (map p_Name (Parameters exp));
    ");" +:+ nl +:+ nl;
    "    // Assert" +:+ nl;
    "    expect(result).toBeDefined();" +:+ nl;
    "    // TODO: Add specific assertions" +:+ nl;
    "  });" +:+ nl ].

Definition generateEdgeCaseTests (exp : ExportedFunction) : string :=
  cat [
    if (0 <? length (Parameters exp))%nat then
      cat [
        "  it('[EDGE CASE] should handle null/undefined inputs', () => {" +:+ nl;
        "    // TODO: Test with null/undefined values" +:+ nl;
        "    expect(true).toBe(true);" +:+ nl;
        "  });" +:+ nl +:+ nl ]
    else "";
    "  it('[EDGE CASE] should handle empty inputs', () => {" +:+ nl;
    "    // TODO: Test with empty values" +:+ nl;
    "    expect(true).toBe(true);" +:+ nl;
    "  });" +:+ nl ].

Definition generateAsyncTest (exp : ExportedFunction) : string :=
  cat [
    "  it('should handle async operations', async () => {" +:+ nl;
    "    // Arrange" +:+ nl;
    arrangeLines exp;
    nl +:+ "    // Act" +:+ nl;
    "    const result = await " +:+ Name exp +:+ "(";
    join ", " (map p_Name (Parameters exp));
    ");" +:+ nl +:+ nl;
    "    // Assert" +:+ nl;
    "    expect(result).toBeDefined();" +:+ nl;
    "  });" +:+ nl ].

Definition generateErrorHandlingTest (exp : ExportedFunction) : string :=
  cat [
    "  it('should handle errors gracefully', () => {" +:+ nl;
    "    // TODO: Test error scenarios" +:+ nl;
    "    expect(true).toBe(true);" +:+ nl;
    "  });" +:+ nl ].

Definition generateDescribeBlock (exp : ExportedFunction) (sourceCode : string) : string :=
  cat [
    "describe('" +:+ Name exp +:+ "', () => {" +:+ nl;
    "  let result: any;" +:+ nl +:+ nl;
    "  it('should be defined', () => {" +:+ nl;
    "    expect(" +:+ Name exp +:+ ").toBeDefined();" +:+ nl;
    "  });" +:+ nl +:+ nl;
    "  it('should be a " +:+ Type_ exp +:+ "', () => {" +:+ nl;
    "    expect(typeof " +:+ Name exp +:+ ").toBe('" +:+ getTypeofValue (Type_ exp) +:+ "');" +:+ nl;
    "  });" +:+ nl +:+ nl;
    generateHappyPathTest exp;
    nl;
    generateEdgeCaseTests exp;
    nl;
    if IsAsync exp then generateAsyncTest exp +:+ nl else "";
    generateErrorHandlingTest exp;
    "});" +:+ nl ].

Definition generateTestCodeWithContext (ord : range_order string)
    (ctg : ContextAwareTestGenerator) (filePath code : string)
    (exports : list ExportedFunction) (relatedFiles : gmap string string) : string :=
  cat [
    "/**" +:+ nl;
    " * Auto-generated test file (Augment Context Engine)" +:+ nl;
    " * Source: " +:+ filePath +:+ nl;
    " * Generated with project-wide context analysis" +:+ nl;
    " */" +:+ nl +:+ nl;
    generateImports filePath exports;
    nl;
    generateFrameworkImports ctg;
    nl;
    if (0 <? size relatedFiles)%nat then generateMockSetup ord relatedFiles +:+ nl else "";
    cat (map (λ exp, generateDescribeBlock exp code +:+ nl) exports) ].

(** The map of [GetFileContext] always holds its five keys with values of
    the expected dynamic types, or none at all; the last branch stands for
    the failed type assertions that cannot then be reached. *)
Definition GenerateTestWithProjectContext (ro : rangeOrders)
    (ctg : ContextAwareTestGenerator) (filePath code : string) : error + string :=
  let fileContext := GetFileContext ro (ContextEngine ctg) filePath in
  match fileContext !! "exports", fileContext !! "related_files" with
  | None, _ => GenerateTest "" code (Framework ctg)
  | Some (CtxExports exports), Some (CtxRelated relatedFiles) =>
      if (length exports =? 0)%nat then inl (errNoExports filePath)
      else inr (generateTestCodeWithContext (ord_code ro) ctg filePath code exports relatedFiles)
  | Some _, _ => inl (errNoExports filePath)
  end.

(** ** cmd/autotest: the worker pool and the collection of its results *)

Record TestResult : Type := mkResult {
  SourcePath : string;
  TestPath : string;
  TestCode : string;
  Error : option error
}.

Record workItem : Type := mkItem {
  path : string;
  code : string
}.

(** [filepath.Rel(".", p)]: the cleaned path when [p] is relative, an error
    when it is absolute. *)
Definition relToDot (p : string) : option string :=
  if HasPrefix p "/" then None else Some (Filepath.Clean p).

(** [scan.DefaultTestPath] *)
Definition DefaultTestPath (tsPath framework outDir : string) : string :=
  let ext := if String.eqb framework "vitest" then ".spec.ts" else ".test.ts" in
  let base := TrimSuffix tsPath (Ext tsPath) in
  if String.eqb outDir "" then base +:+ ext
  else
    let rel := default tsPath (relToDot tsPath) in
    let base := TrimSuffix rel (Ext rel) in
    Filepath.Join outDir (base +:+ ext).

(** Where the goroutine of one work item stands: started and waiting for a
    slot ([semaphore <- struct{}{}] not yet done), holding a slot while the
    generator runs, holding it still after its one result went to the
    [results] channel, or past the deferred [<-semaphore] and [wg.Done()]. *)
Inductive phase : Type := Waiting | Generating | Sent | Finished.

Definition holdsSlot (ph : phase) : bool :=
  match ph with
  | Generating | Sent => true
  | Waiting | Finished => false
  end.

Record pool : Type := mkPool {
  phases : list phase;
  semaphore : nat;
  results : list TestResult
}.

Definition slotsHeld (phs : list phase) : nat :=
  length (filter (λ ph, holdsSlot ph = true) phs).

(** The units that are mid-flight: started on their work and not yet past
    the release of their slot. *)
Definition midFlight (s : pool) : nat := slotsHeld (phases s).

Section WorkerPool.

(** The flags of the run: [-max-workers], the framework in use, [-out]. *)
Variable maxWorkers : nat.
Variable framework out : string.
Variable workQueue : list workItem.

Definition resultOf (wi : workItem) (generated : error + string) : TestResult :=
  let testPath := DefaultTestPath (path wi) framework out in
  match generated with
  | inl err =>
      {| SourcePath := path wi; TestPath := testPath; TestCode := "";
         Error := Some ("generation failed: " +:+ err) |}
  | inr testCode =>
      {| SourcePath := path wi; TestPath := testPath; TestCode := testCode;
         Error := None |}
  end.

(** Every goroutine is started before [wg.Wait()]; none holds a slot. *)
Definition started : pool :=
  {| phases := map (λ _, Waiting) workQueue; semaphore := 0; results := [] |}.

(** One step of one goroutine.  The send on [semaphore], a channel of
    capacity [maxWorkers], goes through only while fewer than [maxWorkers]
    values are buffered; [results] has room for every item, so the send of
    the result never blocks; what the external generator answers is open. *)
Inductive step : pool → pool → Prop :=
| step_acquire s i :
    phases s !! i = Some Waiting →
    semaphore s < maxWorkers →
    step s {| phases := <[i := Generating]> (phases s);
              semaphore := S (semaphore s);
              results := results s |}
| step_send s i wi generated :
    phases s !! i = Some Generating →
    workQueue !! i = Some wi →
    step s {| phases := <[i := Sent]> (phases s);
              semaphore := semaphore s;
              results := results s ++ [resultOf wi generated] |}
| step_release s i :
    phases s !! i = Some Sent →
    step s {| phases := <[i := Finished]> (phases s);
              semaphore := pred (semaphore s);
              results := results s |}.

Inductive reachable : pool → Prop :=
| reach_start : reachable started
| reach_step s s' : reachable s → step s s' → reachable s'.

(** The values buffered in [semaphore] are the slots held, never more than
    the capacity of the channel. *)
Definition pool_inv (s : pool) : Prop :=
  semaphore s = midFlight s ∧ semaphore s ≤ maxWorkers
  ∧ length (phases s) = length workQueue.

End WorkerPool.

(** The loop over the closed [results] channel. *)
Definition collect (rs : list TestResult) : list TestResult * nat * list string :=
  foldl (λ '(testResults, failedCount, logged) result,
           match Error result with
           | Some err =>
               (testResults, S failedCount,
                logged ++ ["error: " +:+ SourcePath result +:+ ": " +:+ err])
           | None => (testResults ++ [result], failedCount, logged)
           end)
        ([], 0, []) rs.

(** How [main] goes on after the loop: [log.Fatalf], the early return of
    "No tests generated.", or on to the dry run and the writing of the
    collected results. *)
Inductive verdict : Type :=
| Fatal (msg : string)
| NothingGenerated
| Generated (testResults : list TestResult).

Definition aggregate (rs : list TestResult) : verdict :=
  let '(testResults, failedCount, _) := collect rs in
  if (length testResults =? 0)%nat then
    if (0 <? failedCount)%nat then Fatal "all generations failed"
    else NothingGenerated
  else Generated testResults.

(** ** internal/scan: candidate files *)

(** The matches of the glob that [AllTypeScriptFiles] keeps. *)
Definition keepsMatch (m : string) : bool :=
  negb (Contains m "node_modules")
  && negb (HasSuffix m ".d.ts")
  && negb (Contains m ".test." || Contains m ".spec.")
  && negb (Contains m "/build/" || Contains m "/dist/").

(** [AllTypeScriptFiles], given what [doublestar.FilepathGlob] answers. *)
Definition AllTypeScriptFiles (globbed : error + list string) : error + list string :=
  match globbed with
  | inl err => inl err
  | inr matches => inr (filter (λ m, keepsMatch m = true) matches)
  end.

(** [HasTest], [stat] telling for which paths [os.Stat] succeeds. *)
Definition HasTest (stat : string → bool) (tsPath : string) : bool :=
  let base := TrimSuffix tsPath (Ext tsPath) in
  existsb stat [ base +:+ ".test.ts"; base +:+ ".test.tsx";
                 base +:+ ".spec.ts"; base +:+ ".spec.tsx" ].

(** [FindCandidates], given the outcomes of [ChangedFiles] and of
    [AllTypeScriptFiles]. *)
Definition FindCandidates (stat : string → bool) (changedOnly : bool)
    (changed all : error + list string) : error + list string :=
  let scanned :=
    if changedOnly then
      match changed with
      | inl err => inl ("failed to get changed files: " +:+ err)
      | inr files => inr files
      end
    else
      match all with
      | inl err => inl ("failed to scan files: " +:+ err)
      | inr files => inr files
      end in
  match scanned with
  | inl err => inl err
  | inr candidates => inr (filter (λ candidate, HasTest stat candidate = false) candidates)
  end.

(** ** internal/exec: framework detection *)

(** What reading and decoding [package.json] gives: the keys of the two
    dependency fields, a field being [None] when it is absent or not an
    object. *)
Inductive manifest : Type :=
| ManifestUnreadable (err : error)
| ManifestNotJSON (err : error)
| Manifest (devDependencies dependencies : option (gset string)).

(** The lockfiles of the project: whether [os.Stat] finds
    [pnpm-lock.yaml], and what [os.ReadFile] returns for each of the three
    files, in the order they are tried. *)
Record lockfiles : Type := mkLockfiles {
  pnpmFound : bool;
  pnpmLock : option string;
  yarnLock : option string;
  packageLock : option string
}.

Definition hasFrameworkInLockfile (locks : lockfiles) (fw : string) : bool :=
  existsb (λ content, match content with
                      | Some text => Contains text fw
                      | None => false
                      end)
          [pnpmLock locks; yarnLock locks; packageLock locks].

Definition errNoFramework : error :=
  "no test framework detected (jest or vitest required)".

Definition DetectFramework (pkg : manifest) (locks : lockfiles) : error + string :=
  match pkg with
  | ManifestUnreadable err => inl ("failed to read package.json: " +:+ err)
  | ManifestNotJSON err => inl ("failed to parse package.json: " +:+ err)
  | Manifest devDependencies dependencies =>
      let devDeps := default ∅ devDependencies in
      let deps := default ∅ dependencies in
      let hasVitest := bool_decide ("vitest" ∈ devDeps) || bool_decide ("vitest" ∈ deps) in
      let hasJest := bool_decide ("jest" ∈ devDeps) || bool_decide ("jest" ∈ deps) in
      if hasVitest then inr "vitest"
      else if hasJest then inr "jest"
      else if pnpmFound locks then
        if hasFrameworkInLockfile locks "vitest" then inr "vitest"
        else if hasFrameworkInLockfile locks "jest" then inr "jest"
        else inl errNoFramework
      else inl errNoFramework
  end.

(** * Vocabulary of the statements and the inputs they are evaluated on *)

(** A symbol together with the offset of the declaration it was read from. *)
Definition matchedAt (r : regex) (n : nat) (mk : list string → exportedSymbol)
    (code : string) (x : nat * exportedSymbol) : Prop :=
  ∃ m len, match_here r n (sliceFrom x.1 code) = Some (m, len)
           ∧ HasPrefix (sliceFrom x.1 code) "export" = true
           ∧ x.2 = mk m.

(** A match with its offset, turned into the Symbol built from it. *)
Definition located (mk : list string → exportedSymbol) (om : nat * list string)
    : nat * exportedSymbol := (om.1, mk om.2).

(** [matches[0]] of the default pattern, when there is a match. *)
Definition firstDefault (code : string) : list (nat * exportedSymbol) :=
  match find_all defaultPattern 1 code 0 0 with
  | om :: _ => [located defaultSymbol om]
  | [] => []
  end.

(** A text that declares an exported class and then an exported function. *)
Definition class_then_function : string :=
  "export class A {}" +:+ nl +:+ "export function f() {}".

(** The Symbols of kind [default]. *)
Definition isDefaultExport (sym : exportedSymbol) : Prop := isDefault sym = true.

(** The four scenarios of the synthesizer. *)
Inductive scenarioKind : Type := HappyPath | NullInput | EmptyInput | AsyncResolution.

(** The names [generateBasicScenarios] gives to the scenarios of a symbol. *)
Definition scenarioName (exp : ExportedFunction) (k : scenarioKind) : string :=
  Name exp +:+ match k with
               | HappyPath => " - happy path"
               | NullInput => " - null input"
               | EmptyInput => " - empty input"
               | AsyncResolution => " - async resolution"
               end.

(** A synchronous function of two parameters and an async one of one. *)
Definition addFn : ExportedFunction :=
  {| Name := "add"; Type_ := "function"; IsAsync := false;
     Parameters := [ mkParam "a" "number" false ""; mkParam "b" "number" false "" ];
     ReturnType := "number"; Description := "" |}.

Definition fetchFn : ExportedFunction :=
  {| Name := "fetchUser"; Type_ := "function"; IsAsync := true;
     Parameters := [ mkParam "id" "string" false "" ];
     ReturnType := "Promise<User>"; Description := "" |}.

(** An analysis as the external program can print it for the file of the
    spec's example: the export [add] with its two parameters and a
    happy-path scenario with one input for each. *)
Definition addHappyPath : TestScenario :=
  {| ts_Name := "add - happy path";
     ts_Description := "Test add with valid inputs";
     ts_Inputs := <["b" := VFloat64 "2"]> (<["a" := VFloat64 "1"]> ∅);
     ts_Expected := VString "success";
     ts_EdgeCase := false |}.

Definition addAnalysis : AugmentCodeAnalysis :=
  {| an_FilePath := "add.ts"; an_Exports := [addFn]; an_Dependencies := [];
     an_Complexity := "low"; an_Description := "Adds two numbers";
     an_TestScenarios := [addHappyPath] |}.

(** The text of a successful generation. *)
Definition textOf (generated : error + string) : string :=
  match generated with
  | inr text => text
  | inl _ => ""
  end.

(** The Symbol of the spec's example and the file the basic generator
    renders for it. *)
Definition addSymbol : exportedSymbol :=
  {| name := "add"; kind := "function"; isAsync := false; params := ["a"; "b"];
     isDefault := false |}.

Definition lines (ls : list string) : string := cat (map (λ l, l +:+ nl) ls).

Definition add_spec_ts : string :=
  lines [ "/**";
          " * Auto-generated test file";
          " * Source: add.ts";
          " */";
          "";
          "import { add } from '../add';";
          "";
          "import { describe, it, expect, beforeEach, afterEach } from 'vitest';";
          "";
          "describe('add', () => {";
          "  it('should be defined', () => {";
          "    expect(add).toBeDefined();";
          "  });";
          "";
          "  it('should handle basic input', () => {";
          "    // TODO: Replace with actual test data";
          "    const result = add(null, null);";
          "    expect(result).toBeDefined();";
          "  });";
          "";
          "  it('should handle edge cases', () => {";
          "    // TODO: Add edge case tests";
          "    expect(true).toBe(true);";
          "  });";
          "});";
          "" ].

(** The project of the example, indexed. *)
Definition addProject : AugmentContextEngine :=
  (IndexProject (Dir "proj" [ File "add.ts" (Some add_ts) ])
                (NewAugmentContextEngine "proj")).1.

(** Two ways a run may range over its maps. *)
Definition ascendingOrders : rangeOrders :=
  mkOrders ascending ascending ascending ascending.

Definition descendingOrders : rangeOrders :=
  mkOrders descending descending descending descending.

(** Induction on a tree of entries, with the hypothesis for every entry of
    a directory. *)
Section fsEntry_induction.

Variable P : fsEntry → Prop.
Hypothesis HFile : ∀ n content, P (File n content).
Hypothesis HDir : ∀ n entries, Forall P entries → P (Dir n entries).
Hypothesis HBroken : ∀ n err, P (Broken n err).

Fixpoint fsEntry_nested_ind (e : fsEntry) : P e :=
  match e with
  | File n content => HFile n content
  | Dir n entries =>
      HDir n entries
        ((fix all (es : list fsEntry) : Forall P es :=
            match es with
            | [] => List.Forall_nil P
            | e' :: es' => List.Forall_cons P e' es' (fsEntry_nested_ind e') (all es')
            end) entries)
  | Broken n err => HBroken n err
  end.

End fsEntry_induction.

(** A project of three files: [a.ts] exports [add] and [sub], [b.ts]
    exports [add], [c.ts] exports [add] and [sub]. *)
Definition mathRoot : fsEntry :=
  Dir "proj"
    [ File "a.ts" (Some ("import { b } from './b'" +:+ nl
                         +:+ "export function add(x, y) {}" +:+ nl
                         +:+ "export function sub(x, y) {}"));
      File "b.ts" (Some "export function add(p, q) {}");
      File "c.ts" (Some ("export function add(x, y) {}" +:+ nl
                         +:+ "export function sub(x, y) {}"));
      Dir "node_modules" [ Broken "pkg" "permission denied" ] ].

Definition mathProject : AugmentContextEngine :=
  (IndexProject mathRoot (NewAugmentContextEngine "proj")).1.

(** A queue of three work items and states of its pool. *)
Definition threeItems : list workItem :=
  [ mkItem "src/a.ts" "export function a() {}";
    mkItem "src/b.ts" "export function b() {}";
    mkItem "src/c.ts" "export function c() {}" ].

(** Two of three units under a limit of two: the first has sent a failure
    and still holds its slot, the second is generating, the third waits. *)
Definition twoOfThree : pool :=
  {| phases := [Sent; Generating; Waiting];
     semaphore := 2;
     results := [ resultOf "vitest" "" (mkItem "src/a.ts" "export function a() {}")
                    (inl "auggie CLI failed: exit status 1") ] |}.

Definition oneOfThree : pool :=
  {| phases := [Generating; Waiting; Waiting]; semaphore := 1; results := [] |}.

Definition twoGenerating : pool :=
  {| phases := [Generating; Generating; Waiting]; semaphore := 2; results := [] |}.




Definition badResult (p reason : string) : TestResult :=
  {| SourcePath := p; TestPath := DefaultTestPath p "vitest" ""; TestCode := "";
     Error := Some reason |}.

(** ** Vocabulary for the texts of matches, parameters and dependencies *)

(** Every byte of the string is in the class. *)
Fixpoint allChars (P : ascii → bool) (s : string) : bool :=
  match s with
  | EmptyString => true
  | String a s' => P a && allChars P s'
  end.

(** The first byte, when there is one, is in the class; likewise the last. *)
Definition startsIn (P : ascii → bool) (s : string) : bool :=
  match s with
  | EmptyString => false
  | String a _ => P a
  end.

Definition endsIn (P : ascii → bool) (s : string) : bool := startsIn P (rev s).




(** The bytes [parseParams] cuts a parameter at, the comma it splits on,
    and the quotes [extractDependencies] trims. *)
Definition isMarker (c : ascii) : bool := mem c ":=".
Definition isComma (c : ascii) : bool := Ascii.eqb c ",".
Definition isQuote (c : ascii) : bool := mem c (String "'" (String dquote "")).

(** A second export whose name holds the name [add], and its first
    scenario. *)
Definition addAllSymbol : exportedSymbol :=
  {| name := "addAll"; kind := "function"; isAsync := false; params := ["xs"];
     isDefault := false |}.

Definition addAllHappyPath : TestScenario :=
  {| ts_Name := "addAll - happy path";
     ts_Description := "Test addAll with valid inputs";
     ts_Inputs := ∅;
     ts_Expected := VString "success";
     ts_EdgeCase := false |}.

(** The sample value for the type of a parameter. *)
Definition sampleOf (param : Param) : value := generateSampleValue (p_Type param).

(** ** Vocabulary for the index *)

(** What the index stores for a path is what the extractors read from the
    text stored for it. *)
Definition consistent (ace : AugmentContextEngine) : Prop :=
  ∀ p, Exports ace !! p
       = (λ text, map toExported (extractExports text)) <$> IndexedCode ace !! p
       ∧ Dependencies ace !! p = extractDependencies <$> IndexedCode ace !! p.

(** The relative dependency [dep] of [targetFile] resolves to [p]. *)
Definition resolvesTo (targetFile dep p : string) : Prop :=
  HasPrefix dep "." = true
  ∧ ∃ ext, ext ∈ resolveExts
           ∧ p = Filepath.Clean (Filepath.Join (Filepath.Dir targetFile) dep) +:+ ext.

(** The files [f] and [g] of the index export a common name. *)
Definition sharesName (ace : AugmentContextEngine) (f g : string) : Prop :=
  ∃ fexps gexps e e',
    Exports ace !! f = Some fexps ∧ Exports ace !! g = Some gexps
    ∧ e ∈ fexps ∧ e' ∈ gexps ∧ Name e = Name e'.

(** ** Vocabulary for the pool *)

(** The units whose result is in the channel. *)
Definition hasReported (ph : phase) : bool :=
  match ph with
  | Sent | Finished => true
  | Waiting | Generating => false
  end.

Definition countPhases (P : phase → bool) (phs : list phase) : nat :=
  length (filter (λ ph, P ph = true) phs).

(** The result was made from an item of the queue. *)
Definition resultFrom (framework out : string) (workQueue : list workItem)
    (result : TestResult) : Prop :=
  ∃ wi, wi ∈ workQueue ∧ SourcePath result = path wi
        ∧ TestPath result = DefaultTestPath (path wi) framework out.

(** All three units past their release. *)
Definition allFinished : pool :=
  {| phases := [Finished; Finished; Finished];
     semaphore := 0;
     results := [ resultOf "vitest" "" (mkItem "src/b.ts" "export function b() {}")
                    (inr "test of b");
                  resultOf "vitest" "" (mkItem "src/a.ts" "export function a() {}")
                    (inl "auggie CLI failed: exit status 1");
                  resultOf "vitest" "" (mkItem "src/c.ts" "export function c() {}")
                    (inr "test of c") ] |}.

(** A manifest that names no framework, beside a [yarn.lock] that does. *)
Definition bareManifest : manifest := Manifest (Some ∅) None.

Definition yarnOnly : lockfiles :=
  {| pnpmFound := false; pnpmLock := None;
     yarnLock := Some "jest@29.7.0:"; packageLock := None |}.

(** A text with the two exports. *)
Definition add_and_addAll : string :=
  "export function add(a, b) {}" +:+ nl +:+ "export function addAll(xs) {}".

(** The bytes of ASCII text. *)
Definition isASCII (c : ascii) : bool := (Strings.code c <? 128)%N.

(** An analysis the external program can print that lists no export. *)
Definition emptyAnalysis : AugmentCodeAnalysis :=
  {| an_FilePath := ""; an_Exports := []; an_Dependencies := [];
     an_Complexity := "low"; an_Description := "Nothing exported";
     an_TestScenarios := [] |}.

(** The items of the queue whose unit has sent its result. *)
Definition reportedItems (phs : list phase) (workQueue : list workItem) : list workItem :=
  map snd (filter (λ pw, hasReported pw.1 = true) (zip phs workQueue)).

(** The result is the one the unit of the item sends, for some answer of
    the generator. *)
Definition madeFrom (framework out : string) (wi : workItem)
    (result : TestResult) : Prop :=
  ∃ generated, result = resultOf framework out wi generated.

(** * Properties *)

(** ** Matching and the order of the matches *)

Section FindAll.

Variable r : regex.
Variable n : nat.

Lemma find_all_lower s skip pos :
  Forall (λ om, pos + skip ≤ om.1) (find_all r n s skip pos).
Proof.
  revert skip pos.
  induction s as [|a s IH]; intros [|skip] pos; simpl.
  - destruct (match_here r n "") as [[m len]|]; repeat constructor; simpl; lia.
  - constructor.
  - destruct (match_here r n (String a s)) as [[m len]|].
    + constructor; [simpl; lia|].
      eapply Forall_impl; [apply IH|]. simpl; intros; lia.
    + eapply Forall_impl; [apply IH|]. simpl; intros; lia.
  - eapply Forall_impl; [apply IH|]. simpl; intros; lia.
Qed.

(** The offsets of successive matches grow strictly: the matches come in
    the order of the text. *)
Lemma find_all_sorted s skip pos :
  StronglySorted lt (map fst (find_all r n s skip pos)).
Proof.
  revert skip pos.
  induction s as [|a s IH]; intros [|skip] pos; simpl.
  - destruct (match_here r n "") as [[m len]|]; repeat constructor.
  - constructor.
  - destruct (match_here r n (String a s)) as [[m len]|]; [|apply IH].
    simpl. constructor; [apply IH|].
    apply Forall_fmap. eapply Forall_impl; [apply find_all_lower|].
    simpl; intros; lia.
  - apply IH.
Qed.

(** Every reported match is a match of the pattern at its offset. *)
Lemma find_all_occurs s skip pos :
  Forall (λ om, ∃ len, match_here r n (sliceFrom (om.1 - pos) s) = Some (om.2, len))
         (find_all r n s skip pos).
Proof.
  revert skip pos.
  assert (Hshift : ∀ a t skip pos,
             Forall (λ om, ∃ len, match_here r n (sliceFrom (om.1 - S pos) t) = Some (om.2, len))
                    (find_all r n t skip (S pos)) →
             Forall (λ om, ∃ len, match_here r n (sliceFrom (om.1 - pos) (String a t)) = Some (om.2, len))
                    (find_all r n t skip (S pos))).
  { intros a t skip pos H.
    pose proof (find_all_lower t skip (S pos)) as Hlow.
    rewrite Forall_forall in *. intros om Hin.
    destruct (H om Hin) as [len Hlen]. specialize (Hlow om Hin). simpl in Hlow.
    exists len. replace (om.1 - pos) with (S (om.1 - S pos)) by lia. exact Hlen. }
  induction s as [|a s IH]; intros [|skip] pos; simpl.
  - destruct (match_here r n "") as [[m len]|] eqn:E; repeat constructor.
    simpl. rewrite Nat.sub_diag. simpl. eauto.
  - constructor.
  - destruct (match_here r n (String a s)) as [[m len]|] eqn:E.
    + constructor; [simpl; rewrite Nat.sub_diag; simpl; eauto|].
      apply Hshift, IH.
    + apply Hshift, IH.
  - apply Hshift, IH.
Qed.



End FindAll.

Lemma CutPrefix_HasPrefix s p s' : CutPrefix s p = Some s' → HasPrefix s p = true.
Proof.
  revert s. induction p as [|a p IH]; intros [|b s]; simpl; try done.
  destruct (Ascii.eqb a b); [apply IH|done].
Qed.

(** A match of a pattern that opens with a literal starts with the literal. *)
Lemma match_here_literal l rs n s res :
  match_here (seqs (Lit l :: rs)) n s = Some res → HasPrefix s l = true.
Proof.
  unfold match_here, seqs. simpl.
  destruct (CutPrefix s l) eqn:E; [|done].
  intros _. by eapply CutPrefix_HasPrefix.
Qed.

Lemma located_symbols mk r n code :
  map snd (map (located mk) (find_all r n code 0 0))
  = map mk (FindAllStringSubmatch r n code).
Proof.
  unfold FindAllStringSubmatch. rewrite !map_map. done.
Qed.

Lemma located_offsets mk r n code :
  map fst (map (located mk) (find_all r n code 0 0)) = map fst (find_all r n code 0 0).
Proof. rewrite map_map. done. Qed.

Lemma find_all_matchedAt mk rs n code :
  Forall (matchedAt (seqs (Lit "export" :: rs)) n mk code)
         (map (located mk) (find_all (seqs (Lit "export" :: rs)) n code 0 0)).
Proof.
  apply Forall_fmap.
  eapply Forall_impl; [apply find_all_occurs|].
  intros [off m] [len Hlen]. simpl in *. rewrite Nat.sub_0_r in Hlen.
  exists m, len. simpl. split_and!; [done| |done].
  by eapply match_here_literal.
Qed.

(** ** The symbol extractor *)

Lemma extractExports_located code :
  extractExports code
  = map snd (map (located funcSymbol) (find_all funcPattern 2 code 0 0))
    ++ map snd (map (located constSymbol) (find_all constPattern 2 code 0 0))
    ++ map snd (map (located classSymbol) (find_all classPattern 1 code 0 0))
    ++ map snd (firstDefault code).
Proof.
  unfold extractExports, firstDefault, FindAllStringSubmatch.
  rewrite !map_map. simpl.
  by destruct (find_all defaultPattern 1 code 0 0) as [|[off m] rest].
Qed.

(** C2, as the code has it: the symbols come grouped by declaration form,
    the exported functions first, then the arrow-function constants, then
    the classes, then at most one default export; every symbol is read from
    a match of its pattern at some offset of the text, and inside each of
    the first three groups the offsets grow strictly, so that a group is in
    the order of the text. *)
Theorem extractExports_grouped_by_form (code : string) :
  ∃ fs cs ks ds : list (nat * exportedSymbol),
    extractExports code = map snd fs ++ map snd cs ++ map snd ks ++ map snd ds
    ∧ Forall (matchedAt funcPattern 2 funcSymbol code) fs
    ∧ Forall (matchedAt constPattern 2 constSymbol code) cs
    ∧ Forall (matchedAt classPattern 1 classSymbol code) ks
    ∧ Forall (matchedAt defaultPattern 1 defaultSymbol code) ds
    ∧ Forall (λ x, kind x.2 = "function") fs
    ∧ Forall (λ x, kind x.2 = "const") cs
    ∧ Forall (λ x, kind x.2 = "class") ks
    ∧ Forall (λ x, kind x.2 = "default") ds
    ∧ StronglySorted lt (map fst fs)
    ∧ StronglySorted lt (map fst cs)
    ∧ StronglySorted lt (map fst ks)
    ∧ length ds ≤ 1.
Proof.
  exists (map (located funcSymbol) (find_all funcPattern 2 code 0 0)),
         (map (located constSymbol) (find_all constPattern 2 code 0 0)),
         (map (located classSymbol) (find_all classPattern 1 code 0 0)),
         (firstDefault code).
  split; [apply extractExports_located|].
  assert (Hd : Forall (matchedAt defaultPattern 1 defaultSymbol code) (firstDefault code)).
  { pose proof (find_all_matchedAt defaultSymbol _ 1 code : Forall _ (map _ (find_all defaultPattern 1 code 0 0))) as H.
    unfold firstDefault.
    destruct (find_all defaultPattern 1 code 0 0) as [|om rest]; [constructor|].
    inversion H; subst. by repeat constructor. }
  split_and!.
  - apply (find_all_matchedAt funcSymbol).
  - apply (find_all_matchedAt constSymbol).
  - apply (find_all_matchedAt classSymbol).
  - exact Hd.
  - apply Forall_fmap, Forall_true. done.
  - apply Forall_fmap, Forall_true. done.
  - apply Forall_fmap, Forall_true. done.
  - unfold firstDefault.
    destruct (find_all defaultPattern 1 code 0 0); repeat constructor.
  - rewrite located_offsets. apply find_all_sorted.
  - rewrite located_offsets. apply find_all_sorted.
  - rewrite located_offsets. apply find_all_sorted.
  - unfold firstDefault.
    destruct (find_all defaultPattern 1 code 0 0); simpl; lia.
Qed.

(** C2 as stated fails: in a text that declares an exported class and then
    an exported function, the class is seen first (offset 0, the function
    at offset 18), yet the function Symbol is returned before the class
    Symbol. *)
Lemma extractExports_not_first_seen :
  Index class_then_function "export class A" = Some 0
  ∧ Index class_then_function "export function f" = Some 18
  ∧ extractExports class_then_function
    = [ {| name := "f"; kind := "function"; isAsync := false; params := [];
           isDefault := false |};
        {| name := "A"; kind := "class"; isAsync := false; params := [];
           isDefault := false |} ].
Proof. vm_compute. done. Qed.


#[local] Instance isDefaultExport_dec sym : Decision (isDefaultExport sym).
Proof. unfold isDefaultExport. apply _. Defined.


Example async_function :
  extractExports "export async function load(id: string, opts = {}) {}"
  = [ {| name := "load"; kind := "function"; isAsync := true;
         params := ["id"; "opts"]; isDefault := false |} ].
Proof. vm_compute. done. Qed.

Example arrow_constant :
  extractExports "export const twice = (n: number) => n * 2;"
  = [ {| name := "twice"; kind := "const"; isAsync := false;
         params := ["n"]; isDefault := false |} ].
Proof. vm_compute. done. Qed.

(** [isAsync] looks for the word in the whole match, the name included. *)
Example async_in_the_name :
  map isAsync (extractExports "export function asyncStore(key) {}") = [true].
Proof. vm_compute. done. Qed.

(** A declaration the pattern does not fit is passed over. *)
Example generic_function_skipped :
  extractExports "export function id<T>(x: T): T { return x }" = [].
Proof. vm_compute. done. Qed.

Example params_trimmed : parseParams " a : number ,b?: string, " = ["a"; "b?"].
Proof. vm_compute. done. Qed.

Example default_named : map name (extractExports "export default function foo() {}") = ["foo"].
Proof. vm_compute. done. Qed.

Example default_anonymous : map name (extractExports "export default class {}") = ["default"].
Proof. vm_compute. done. Qed.

Example default_twice :
  extractExports ("export default foo;" +:+ nl +:+ "export default bar;")
  = [ {| name := "foo"; kind := "default"; isAsync := false; params := [];
         isDefault := true |} ].
Proof. vm_compute. done. Qed.

(** ** The callers of the extractor *)

Lemma length_zero_nil {A} (l : list A) : (length l =? 0) = true ↔ l = [].
Proof. destruct l; simpl; split; done. Qed.

Lemma GenerateTest_fails_iff tsPath code framework :
  GenerateTest tsPath code framework = inl (errNoExports tsPath)
  ↔ extractExports code = [].
Proof.
  unfold GenerateTest. rewrite <- length_zero_nil.
  destruct (length (extractExports code) =? 0); split; done.
Qed.

Lemma analyzeBasic_exports filePath code :
  an_Exports (analyzeBasic filePath code) = map toExported (extractExports code).
Proof. done. Qed.

(** C7, as the code has it: [GenerateTest] fails with the condition of no
    exported symbols exactly when the extractor returns no Symbol for the
    text.  [GenerateTestWithAugment] fails with that condition exactly when
    the analysis it obtained lists no export; this is the extractor
    returning no Symbol whenever the analysis is the local one (the
    external program ran and failed, or printed something that is not
    JSON), and when no analysis is obtained (the program is not found, the
    temporary file cannot be made or written) the failure is that of the
    analysis, whatever the text.  The extractor itself is a total function
    and answers the empty list for a text without declarations. *)
Theorem no_exports_condition (tsPath code framework projectRoot : string)
    (ord : range_order value) (run : augmentRun) :
  (GenerateTest tsPath code framework = inl (errNoExports tsPath)
     ↔ extractExports code = [])
  ∧ (GenerateTestWithAugment run ord tsPath code framework projectRoot
     = inl (errNoExports tsPath)
     ↔ ∃ analysis, AnalyzeWithAugment run tsPath code projectRoot = inr analysis
                   ∧ an_Exports analysis = [])
  ∧ (run = CommandFails ∨ run = OutputNotJSON →
       (GenerateTestWithAugment run ord tsPath code framework projectRoot
        = inl (errNoExports tsPath) ↔ extractExports code = []))
  ∧ (∀ err, AnalyzeWithAugment run tsPath code projectRoot = inl err →
       GenerateTestWithAugment run ord tsPath code framework projectRoot
       = inl ("augment analysis failed: " +:+ err))
  ∧ (extractExports code ≠ [] →
       ∃ text, GenerateTest tsPath code framework = inr text)
  ∧ extractExports "" = [].
Proof.
  assert (Haug : ∀ run',
            AnalyzeWithAugment run' tsPath code projectRoot = inr (analyzeBasic tsPath code) →
            GenerateTestWithAugment run' ord tsPath code framework projectRoot
            = inl (errNoExports tsPath) ↔ extractExports code = []).
  { intros run' Hrun. unfold GenerateTestWithAugment. rewrite Hrun.
    rewrite analyzeBasic_exports, length_map, <- length_zero_nil.
    destruct (length (extractExports code) =? 0); split; done. }
  split_and!.
  - apply GenerateTest_fails_iff.
  - unfold GenerateTestWithAugment.
    destruct (AnalyzeWithAugment run tsPath code projectRoot) as [err|analysis].
    + split.
      * intros H. exfalso. injection H as H. unfold errNoExports in H.
        vm_compute in H. discriminate H.
      * intros (analysis & Ha & _). discriminate Ha.
    + destruct (an_Exports analysis) as [|e es] eqn:E; simpl.
      * split; [|done]. intros _. by exists analysis.
      * split; [done|]. intros (analysis' & [= <-] & He). congruence.
  - intros [-> | ->]; by apply Haug.
  - intros err Herr. unfold GenerateTestWithAugment. by rewrite Herr.
  - intros Hne. unfold GenerateTest.
    destruct (length (extractExports code) =? 0) eqn:E; [|eauto].
    by apply length_zero_nil in E.
  - done.
Qed.

Lemma no_exports_condition_witness :
  (CommandFails = CommandFails ∨ CommandFails = OutputNotJSON)
  ∧ extractExports add_ts ≠ []
  ∧ (GenerateTestWithAugment CommandFails ascending "add.ts" add_ts "vitest" "."
     = inl (errNoExports "add.ts") ↔ extractExports add_ts = [])
  ∧ ∃ text, GenerateTest "add.ts" add_ts "vitest" = inr text.
Proof.
  assert (Hrun : CommandFails = CommandFails ∨ CommandFails = OutputNotJSON) by (by left).
  assert (Hne : extractExports add_ts ≠ []) by (vm_compute; discriminate).
  destruct (no_exports_condition "add.ts" add_ts "vitest" "." ascending CommandFails)
    as (_ & _ & Hlocal & _ & Hok & _).
  split_and!; [exact Hrun|exact Hne|exact (Hlocal Hrun)|exact (Hok Hne)].
Defined.

(** C7 as stated fails in [GenerateTestWithAugment]: for a text without
    declarations and a run in which the external program is not found, the
    extractor returns no Symbol and yet the failure is that of the
    analysis, not the condition of no exported symbols; and for the text of
    the example, from which the extractor returns a Symbol, a run in which
    the program prints an analysis without exports fails with the condition
    of no exported symbols. *)
Lemma no_exports_condition_varies_with_the_run :
  extractExports "" = []
  ∧ GenerateTestWithAugment (LookPathFails "executable file not found in $PATH")
      ascending "empty.ts" "" "vitest" "."
    = inl "augment analysis failed: augment CLI not found in PATH: executable file not found in $PATH"
  ∧ GenerateTestWithAugment (LookPathFails "executable file not found in $PATH")
      ascending "empty.ts" "" "vitest" "."
    ≠ inl (errNoExports "empty.ts")
  ∧ extractExports add_ts ≠ []
  ∧ GenerateTestWithAugment (OutputParsed emptyAnalysis) ascending
      "add.ts" add_ts "vitest" "."
    = inl (errNoExports "add.ts").
Proof.
  split_and!; [reflexivity|reflexivity|vm_compute; discriminate|
               vm_compute; discriminate|reflexivity].
Qed.

(** ** The scenario synthesizer *)

(** The order in which [generateBasicScenarios] emits the scenarios, by the
    shape of the value it is given. *)
Lemma generateBasicScenarios_order (exp : ExportedFunction) :
  (IsAsync exp = false → 0 < length (Parameters exp) →
     map ts_Name (generateBasicScenarios exp)
     = map (scenarioName exp) [HappyPath; NullInput; EmptyInput])
  ∧ (IsAsync exp = true → 0 < length (Parameters exp) →
     map ts_Name (generateBasicScenarios exp)
     = map (scenarioName exp) ([HappyPath; NullInput; EmptyInput] ++ [AsyncResolution]))
  ∧ (IsAsync exp = false → length (Parameters exp) = 0 →
     map ts_Name (generateBasicScenarios exp)
     = map (scenarioName exp) [HappyPath; EmptyInput])
  ∧ (IsAsync exp = true → length (Parameters exp) = 0 →
     map ts_Name (generateBasicScenarios exp)
     = map (scenarioName exp) ([HappyPath; EmptyInput] ++ [AsyncResolution])).
Proof.
  unfold generateBasicScenarios, scenarioName.
  split_and!; intros Hasync Hlen; rewrite Hasync;
    destruct (Parameters exp) as [|p ps]; simpl in *; try lia; try done.
Qed.

Lemma generateBasicScenarios_order_examples :
  (IsAsync addFn = false ∧ 0 < length (Parameters addFn)
   ∧ map ts_Name (generateBasicScenarios addFn)
     = ["add - happy path"; "add - null input"; "add - empty input"])
  ∧ (IsAsync fetchFn = true ∧ 0 < length (Parameters fetchFn)
     ∧ map ts_Name (generateBasicScenarios fetchFn)
       = ["fetchUser - happy path"; "fetchUser - null input";
          "fetchUser - empty input"; "fetchUser - async resolution"]).
Proof.
  split.
  - split_and!; [reflexivity|simpl; lia|].
    apply (generateBasicScenarios_order addFn); [reflexivity|simpl; lia].
  - split_and!; [reflexivity|simpl; lia|].
    apply (generateBasicScenarios_order fetchFn); [reflexivity|simpl; lia].
Qed.

(** C6, evaluated where it fails: the synthesizer is only ever called on
    the conversion of an extracted Symbol, and the conversion leaves the
    parameters out, so the test on the number of parameters never holds:
    every extracted Symbol, with parameters or without, gets the happy
    path and the empty input (and the async resolution when async), never
    the null input.  For the text of the example, whose Symbol [add] is
    synchronous with the parameters [a] and [b], the scenarios are the
    happy path and the empty input, not the three of the synchronous
    symbol with parameters, which the synthesizer does emit when it is
    handed the same function with its parameters. *)
Theorem extracted_symbols_get_no_null_input :
  (∀ sym,
     map ts_Name (generateBasicScenarios (toExported sym))
     = map (scenarioName (toExported sym))
           ([HappyPath; EmptyInput] ++ (if isAsync sym then [AsyncResolution] else [])))
  ∧ extractExports add_ts = [addSymbol]
  ∧ params addSymbol = ["a"; "b"] ∧ isAsync addSymbol = false
  ∧ map ts_Name (an_TestScenarios (analyzeBasic "add.ts" add_ts))
    = ["add - happy path"; "add - empty input"]
  ∧ map ts_Name (an_TestScenarios (analyzeBasic "add.ts" add_ts))
    ≠ map (scenarioName (toExported addSymbol)) [HappyPath; NullInput; EmptyInput]
  ∧ map ts_Name (generateBasicScenarios addFn)
    = ["add - happy path"; "add - null input"; "add - empty input"].
Proof.
  split_and!.
  - intros sym. unfold generateBasicScenarios, scenarioName. simpl.
    by destruct (isAsync sym).
  - vm_compute. reflexivity.
  - reflexivity.
  - reflexivity.
  - vm_compute. reflexivity.
  - vm_compute. discriminate.
  - vm_compute. reflexivity.
Qed.

(** ** The order of a range and the rendered text *)

Lemma fair_ascending {V} : fair (@ascending V).
Proof. intros m. done. Qed.

Lemma fair_descending {V} : fair (@descending V).
Proof. intros m. apply reverse_Permutation. Qed.

(** A map with at most one entry can be visited in one order only. *)
Lemma fair_small {V} (ord : range_order V) (m : gmap string V) :
  fair ord → size m ≤ 1 → ord m = map_to_list m.
Proof.
  intros Hfair Hsize. specialize (Hfair m).
  rewrite <- length_map_to_list in Hsize.
  destruct (map_to_list m) as [|x [|y l]]; simpl in Hsize; [| |lia].
  - by apply Permutation_nil_r.
  - by apply Permutation_singleton_r.
Qed.

Lemma generateTestCase_small ord1 ord2 exp scenario framework :
  fair ord1 → fair ord2 → size (ts_Inputs scenario) ≤ 1 →
  generateTestCase ord1 exp scenario framework
  = generateTestCase ord2 exp scenario framework.
Proof.
  intros H1 H2 Hsize. unfold generateTestCase.
  by rewrite (fair_small ord1), (fair_small ord2).
Qed.

Lemma generateBasicScenarios_no_params exp :
  Parameters exp = [] →
  Forall (λ scenario, size (ts_Inputs scenario) ≤ 1) (generateBasicScenarios exp).
Proof.
  intros Hp. unfold generateBasicScenarios. rewrite Hp. simpl.
  destruct (IsAsync exp); repeat constructor; simpl; rewrite map_size_empty; lia.
Qed.

Lemma analyzeBasic_small filePath code :
  Forall (λ scenario, size (ts_Inputs scenario) ≤ 1)
         (an_TestScenarios (analyzeBasic filePath code)).
Proof.
  simpl. apply Forall_concat, Forall_fmap, Forall_fmap.
  apply Forall_true. intros sym. by apply generateBasicScenarios_no_params.
Qed.

Lemma generateTestsForExport_small ord1 ord2 exp scenarios framework :
  fair ord1 → fair ord2 →
  Forall (λ scenario, size (ts_Inputs scenario) ≤ 1) scenarios →
  generateTestsForExport ord1 exp scenarios framework
  = generateTestsForExport ord2 exp scenarios framework.
Proof.
  intros H1 H2 Hall. unfold generateTestsForExport.
  assert (Hmap :
    map (λ scenario, generateTestCase ord1 exp scenario framework +:+ nl)
        (filter (λ scenario, Contains (ts_Name scenario) (Name exp) = true) scenarios)
    = map (λ scenario, generateTestCase ord2 exp scenario framework +:+ nl)
        (filter (λ scenario, Contains (ts_Name scenario) (Name exp) = true) scenarios)).
  { apply map_ext_Forall, Forall_forall.
    intros scenario [_ Hin]%list_elem_of_filter.
    rewrite Forall_forall in Hall.
    f_equal. apply generateTestCase_small; [done..|by apply Hall]. }
  by rewrite Hmap.
Qed.

(** What the local analysis of a text renders does not depend on the order
    of any range: its scenarios have no inputs. *)
Lemma local_rendering_deterministic ord1 ord2 tsPath code framework :
  fair ord1 → fair ord2 →
  generateTestCodeFromAnalysis ord1 tsPath (analyzeBasic tsPath code) framework
  = generateTestCodeFromAnalysis ord2 tsPath (analyzeBasic tsPath code) framework.
Proof.
  intros H1 H2. unfold generateTestCodeFromAnalysis.
  assert (Hmap : ∀ exports scenarios,
    Forall (λ scenario, size (ts_Inputs scenario) ≤ 1) scenarios →
    map (λ exp, generateTestsForExport ord1 exp scenarios framework +:+ nl) exports
    = map (λ exp, generateTestsForExport ord2 exp scenarios framework +:+ nl) exports).
  { intros exports scenarios Hall. apply map_ext. intros exp. f_equal.
    by apply generateTestsForExport_small. }
  by rewrite (Hmap _ _ (analyzeBasic_small tsPath code)).
Qed.

(** C1, evaluated where it fails: for one input model (the path [add.ts],
    the symbol [add], one scenario with the inputs [a] and [b], the
    framework [vitest]) two visits of the scenario's inputs, both of them
    orders a Go range may follow, render different texts: the two Arrange
    bindings change places.  The mock-setup lines of the context-aware
    generator change places in the same way. *)
Theorem arrange_order_follows_range_order :
  fair (@ascending value) ∧ fair (@descending value)
  ∧ Contains (textOf (GenerateTestWithAugment (OutputParsed addAnalysis) ascending
                        "add.ts" add_ts "vitest" "."))
             ("    const a = 1;" +:+ nl +:+ "    const b = 2;" +:+ nl) = true
  ∧ Contains (textOf (GenerateTestWithAugment (OutputParsed addAnalysis) descending
                        "add.ts" add_ts "vitest" "."))
             ("    const b = 2;" +:+ nl +:+ "    const a = 1;" +:+ nl) = true
  ∧ GenerateTestWithAugment (OutputParsed addAnalysis) ascending "add.ts" add_ts "vitest" "."
    ≠ GenerateTestWithAugment (OutputParsed addAnalysis) descending "add.ts" add_ts "vitest" "."
  ∧ generateMockSetup ascending (<["src/b.ts" := "B"]> (<["src/a.ts" := "A"]> ∅))
    ≠ generateMockSetup descending (<["src/b.ts" := "B"]> (<["src/a.ts" := "A"]> ∅)).
Proof.
  split_and!.
  - apply fair_ascending.
  - apply fair_descending.
  - vm_compute. done.
  - vm_compute. done.
  - vm_compute. discriminate.
  - vm_compute. discriminate.
Qed.

(** ** The example of the spec: a file that exports [add] *)

(** C4 as stated fails: none of the three generators renders, for the file
    of the example, a test that binds [a] and [b] or that calls
    [add(a, b)].  The basic generator calls [add(null, null)]; the two
    generators that go through [ExportedFunction] have lost the parameter
    names and call [add()]. *)
Lemma add_example_has_no_bindings :
  Contains (textOf (GenerateTest "add.ts" add_ts "vitest")) "add(a, b)" = false
  ∧ Contains (textOf (GenerateTest "add.ts" add_ts "vitest")) "const a" = false
  ∧ Contains (textOf (GenerateTest "add.ts" add_ts "vitest")) "add(null, null)" = true
  ∧ Contains (textOf (GenerateTestWithAugment CommandFails ascending
                        "add.ts" add_ts "vitest" ".")) "add(a, b)" = false
  ∧ Contains (textOf (GenerateTestWithAugment CommandFails ascending
                        "add.ts" add_ts "vitest" ".")) "const a" = false
  ∧ Contains (textOf (GenerateTestWithAugment CommandFails ascending
                        "add.ts" add_ts "vitest" ".")) "const result = add();" = true
  ∧ Contains (textOf (GenerateTestWithProjectContext ascendingOrders
                        (mkGenerator addProject "vitest") "add.ts" add_ts))
             "add(a, b)" = false
  ∧ Contains (textOf (GenerateTestWithProjectContext ascendingOrders
                        (mkGenerator addProject "vitest") "add.ts" add_ts))
             "const a" = false
  ∧ Contains (textOf (GenerateTestWithProjectContext ascendingOrders
                        (mkGenerator addProject "vitest") "add.ts" add_ts))
             "const result = add();" = true.
Proof. vm_compute. done. Qed.

(** C4, as the code has it: the extractor yields the one Symbol [add], a
    function with the parameters [a] and [b]; for the framework [vitest]
    the basic generator renders exactly [add_spec_ts], whose first test is
    the existence assertion and whose second calls [add(null, null)], one
    [null] for each parameter, without any binding; the text is a function
    of the path, the source text and the framework alone. *)
Theorem add_example :
  extractExports add_ts = [addSymbol]
  ∧ GenerateTest "add.ts" add_ts "vitest" = inr add_spec_ts
  ∧ Contains add_spec_ts "expect(add).toBeDefined();" = true
  ∧ Contains add_spec_ts "const result = add(null, null);" = true
  ∧ (∀ tsPath, GenerateTest tsPath add_ts "vitest"
               = inr (generateTestCode tsPath [addSymbol] add_ts "vitest")).
Proof.
  assert (Hx : extractExports add_ts = [addSymbol]) by (vm_compute; done).
  split_and!; [exact Hx|vm_compute; done..|].
  intros tsPath. unfold GenerateTest. rewrite Hx. done.
Qed.

(** ** The project index *)

(** The walk stores files; it never touches the ready flag. *)
Lemma walk_Initialized e :
  ∀ path rel ace, Initialized (walk e path rel ace).1 = Initialized ace.
Proof.
  induction e as [n content|n entries IH|n err] using fsEntry_nested_ind;
    intros path rel ace; simpl.
  - destruct (skipsFile path); [done|]. by destruct content.
  - destruct (skipsDir path); [done|].
    revert ace. induction IH as [|e' es' He' _ IHes]; intros ace; [done|].
    specialize (He' (Filepath.Join path (entryName e')) (rel ++ [entryName e']) ace).
    destruct (walk e' _ _ ace) as [ace' [err|]]; simpl in *; [done|].
    rewrite IHes. done.
  - done.
Qed.

Lemma IndexProject_ready root ace ace' :
  IndexProject root ace = (ace', None) → Initialized ace' = true.
Proof.
  unfold IndexProject.
  destruct (walk root (ProjectRoot ace) [] ace) as [ace1 [err|]]; [done|].
  by intros [= <-].
Qed.

Lemma IndexProject_failed root ace ace' err :
  IndexProject root ace = (ace', Some err) → Initialized ace' = Initialized ace.
Proof.
  unfold IndexProject.
  pose proof (walk_Initialized root (ProjectRoot ace) [] ace) as Hw.
  destruct (walk root (ProjectRoot ace) [] ace) as [ace1 [err1|]]; [|done].
  by intros [= <- _].
Qed.

(** C9: while the ready flag is false, and so for a fresh engine and for
    one whose indexing failed, each of the five read operations answers
    the empty result; an [IndexProject] that returns no error leaves the
    flag true. *)
Theorem reads_empty_until_indexed (ro : rangeOrders) (ace : AugmentContextEngine)
    (targetFile : string) (limit : Z) (root : fsEntry) :
  (Initialized ace = false →
     GetRelatedCode ace targetFile = ∅
     ∧ FindSimilarFiles ro ace targetFile limit = []
     ∧ GetExportContext ro ace targetFile = ∅
     ∧ GetFileContext ro ace targetFile = ∅
     ∧ GetProjectStats ro ace = ∅)
  ∧ (∀ ace', IndexProject root ace = (ace', None) → Initialized ace' = true)
  ∧ (∀ ace' err, IndexProject root ace = (ace', Some err) →
       Initialized ace' = Initialized ace)
  ∧ Initialized (NewAugmentContextEngine (ProjectRoot ace)) = false.
Proof.
  split_and!.
  - intros Hinit.
    unfold GetRelatedCode, FindSimilarFiles, GetExportContext, GetFileContext,
      GetProjectStats.
    rewrite Hinit. done.
  - apply IndexProject_ready.
  - apply IndexProject_failed.
  - done.
Qed.

Lemma reads_empty_until_indexed_witness :
  Initialized (NewAugmentContextEngine "proj") = false
  ∧ GetFileContext ascendingOrders (NewAugmentContextEngine "proj") "a.ts" = ∅
  ∧ FindSimilarFiles ascendingOrders (NewAugmentContextEngine "proj") "a.ts" 3 = []
  ∧ IndexProject mathRoot (NewAugmentContextEngine "proj") = (mathProject, None)
  ∧ Initialized mathProject = true.
Proof.
  destruct (reads_empty_until_indexed ascendingOrders (NewAugmentContextEngine "proj")
              "a.ts" 3 mathRoot) as (Hempty & Hready & _ & _).
  assert (Hrun : IndexProject mathRoot (NewAugmentContextEngine "proj") = (mathProject, None))
    by (vm_compute; reflexivity).
  destruct (Hempty eq_refl) as (_ & Hsim & _ & Hctx & _).
  split_and!; [reflexivity|exact Hctx|exact Hsim|exact Hrun|exact (Hready _ Hrun)].
Defined.

(** The spec's resolution example on the indexed project. *)
Example related_of_a :
  map_to_list (GetRelatedCode mathProject "a.ts") = [("b.ts", "export function add(p, q) {}")].
Proof. vm_compute. done. Qed.

Lemma fair_ascendingOrders : fairOrders ascendingOrders.
Proof. repeat split; apply fair_ascending. Qed.

Lemma fair_descendingOrders : fairOrders descendingOrders.
Proof. repeat split; apply fair_descending. Qed.

Lemma firstFiles_take files result limit :
  (Z.of_nat (length result) < limit)%Z →
  firstFiles files result limit
  = result ++ take (Z.to_nat limit - length result) files.
Proof.
  revert result. induction files as [|file files IH]; intros result Hlt; simpl.
  - by rewrite take_nil, app_nil_r.
  - rewrite length_app. simpl.
    destruct (Z.leb_spec limit (Z.of_nat (length result + 1))) as [Hle|Hgt].
    + replace (Z.to_nat limit - length result) with 1 by lia. done.
    + rewrite IH by (rewrite length_app; simpl; lia).
      rewrite length_app. simpl.
      replace (Z.to_nat limit - length result) with (S (Z.to_nat limit - (length result + 1))) by lia.
      simpl. by rewrite <- app_assoc.
Qed.

(** What [FindSimilarFiles] returns on an indexed project with a target
    that has exports and a limit of at least one: the first [limit] files
    of the range over the scores, in the order of that range. *)
Lemma FindSimilarFiles_prefix ro ace targetFile limit :
  Initialized ace = true → (1 ≤ limit)%Z →
  default [] (Exports ace !! targetFile) ≠ [] →
  FindSimilarFiles ro ace targetFile limit
  = take (Z.to_nat limit) (map fst (ord_scores ro (similarScores ro ace targetFile))).
Proof.
  intros Hinit Hlimit Hexp. unfold FindSimilarFiles. rewrite Hinit. simpl.
  destruct (Z.leb_spec limit 0); [lia|].
  destruct (default [] (Exports ace !! targetFile)) as [|exp exps] eqn:E; [done|].
  simpl. rewrite firstFiles_take by (simpl; lia).
  simpl. by rewrite Nat.sub_0_r.
Qed.

(** C3, evaluated where it fails: in the project above the target [a.ts]
    shares one name with [b.ts] and two with [c.ts]; when the range over
    the scores visits [b.ts] first, which a Go range may do, the files come
    back as [b.ts; c.ts], the lower score first, and for a limit of one
    [b.ts] is returned although [c.ts], not returned, scores higher.  Under
    another order of the same range the answer is [c.ts; b.ts]. *)
Theorem similar_files_not_sorted :
  fairOrders descendingOrders
  ∧ Initialized mathProject = true
  ∧ similarScores descendingOrders mathProject "a.ts" !! "b.ts" = Some 1
  ∧ similarScores descendingOrders mathProject "a.ts" !! "c.ts" = Some 2
  ∧ FindSimilarFiles descendingOrders mathProject "a.ts" 2 = ["b.ts"; "c.ts"]
  ∧ FindSimilarFiles descendingOrders mathProject "a.ts" 1 = ["b.ts"]
  ∧ fairOrders ascendingOrders
  ∧ FindSimilarFiles ascendingOrders mathProject "a.ts" 2 = ["c.ts"; "b.ts"].
Proof.
  split_and!;
    [apply fair_descendingOrders|vm_compute; done..|apply fair_ascendingOrders|vm_compute; done].
Qed.

(** ** The worker pool *)

Lemma slotsHeld_cons ph phs :
  slotsHeld (ph :: phs) = (if holdsSlot ph then 1 else 0) + slotsHeld phs.
Proof.
  unfold slotsHeld. destruct (holdsSlot ph) eqn:E.
  - by rewrite filter_cons_True.
  - rewrite filter_cons_False; [done|]. by rewrite E.
Qed.

(** Moving one goroutine to another phase changes the count of held slots
    by what that goroutine holds before and after. *)
Lemma slotsHeld_insert phs i ph ph' :
  phs !! i = Some ph →
  slotsHeld (<[i := ph']> phs) + (if holdsSlot ph then 1 else 0)
  = slotsHeld phs + (if holdsSlot ph' then 1 else 0).
Proof.
  revert i. induction phs as [|ph0 phs IH]; intros [|i] Hi; simpl in *; try done.
  - injection Hi as ->. rewrite !slotsHeld_cons. lia.
  - rewrite !slotsHeld_cons. specialize (IH i Hi). lia.
Qed.

Lemma slotsHeld_waiting {A} (l : list A) : slotsHeld (map (λ _, Waiting) l) = 0.
Proof. induction l as [|x l IH]; [done|]. simpl. by rewrite slotsHeld_cons, IH. Qed.

Section WorkerPoolInvariant.

Variable maxWorkers : nat.
Variable framework out : string.
Variable workQueue : list workItem.

#[local] Abbreviation step := (step maxWorkers framework out workQueue).
#[local] Abbreviation reachable := (reachable maxWorkers framework out workQueue).

#[local] Abbreviation inv := (pool_inv maxWorkers workQueue).

Lemma pool_inv_started : inv (started workQueue).
Proof.
  unfold pool_inv, midFlight. simpl.
  rewrite slotsHeld_waiting, length_map. split_and!; [done|lia|done].
Qed.

Lemma pool_inv_step s s' : inv s → step s s' → inv s'.
Proof.
  unfold pool_inv, midFlight.
  intros (Hsem & Hcap & Hlen) Hstep.
  destruct Hstep as [s i Hi Hfree|s i wi generated Hi Hwi|s i Hi]; simpl;
    pose proof (slotsHeld_insert (phases s) i _ Generating Hi) as Hg;
    pose proof (slotsHeld_insert (phases s) i _ Sent Hi) as Hs;
    pose proof (slotsHeld_insert (phases s) i _ Finished Hi) as Hf;
    simpl in *; rewrite length_insert; split_and!; lia.
Qed.

Lemma reachable_inv s : reachable s → inv s.
Proof.
  induction 1 as [|s s' _ IH Hstep]; [apply pool_inv_started|].
  by eapply pool_inv_step.
Qed.

(** C5: with a limit of at least one, in every state the pool can reach,
    however the goroutines interleave and whatever the generator answers,
    the units that hold a slot (generating, or done generating and not yet
    past the deferred release) are as many as the values buffered in the
    semaphore and never more than the limit; and a unit that has sent its
    result, be it an error or a test, can always take the step that
    releases its slot. *)
Theorem pool_never_exceeds_limit (s : pool) :
  1 ≤ maxWorkers → reachable s →
  midFlight s ≤ maxWorkers
  ∧ semaphore s = midFlight s
  ∧ (∀ i, phases s !! i = Some Sent →
       ∃ s', step s s' ∧ phases s' !! i = Some Finished
             ∧ midFlight s' = pred (midFlight s)).
Proof.
  intros _ Hreach.
  destruct (reachable_inv s Hreach) as (Hsem & Hcap & Hlen).
  split_and!; [lia|done|].
  intros i Hi.
  eexists. split; [by apply step_release|]. simpl. split.
  - apply list_lookup_insert_eq. by eapply lookup_lt_Some.
  - unfold midFlight in *. simpl.
    pose proof (slotsHeld_insert (phases s) i _ Finished Hi) as Hf.
    simpl in Hf. lia.
Qed.

End WorkerPoolInvariant.

Lemma twoOfThree_reachable : reachable 2 "vitest" "" threeItems twoOfThree.
Proof.
  apply (reach_step 2 "vitest" "" threeItems twoGenerating).
  - apply (reach_step 2 "vitest" "" threeItems oneOfThree).
    + apply (reach_step 2 "vitest" "" threeItems (started threeItems)).
      * apply reach_start.
      * apply (step_acquire 2 "vitest" "" threeItems (started threeItems) 0);
          simpl; [reflexivity|lia].
    + apply (step_acquire 2 "vitest" "" threeItems oneOfThree 1);
        simpl; [reflexivity|lia].
  - apply (step_send 2 "vitest" "" threeItems twoGenerating 0
             (mkItem "src/a.ts" "export function a() {}")
             (inl "auggie CLI failed: exit status 1")); reflexivity.
Defined.

Lemma pool_never_exceeds_limit_witness :
  1 ≤ 2 ∧ reachable 2 "vitest" "" threeItems twoOfThree
  ∧ midFlight twoOfThree ≤ 2 ∧ semaphore twoOfThree = midFlight twoOfThree.
Proof.
  assert (H1 : 1 ≤ 2) by lia.
  destruct (pool_never_exceeds_limit 2 "vitest" "" threeItems twoOfThree H1
              twoOfThree_reachable) as (Hle & Heq & _).
  split_and!; [exact H1|exact twoOfThree_reachable|exact Hle|exact Heq].
Defined.

(** The third unit cannot start while both slots are held. *)
Example third_unit_waits s' :
  ¬ (step 2 "vitest" "" threeItems twoOfThree s' ∧ phases s' !! 2 = Some Generating).
Proof.
  intros [Hstep Hph].
  inversion Hstep as [s i Hi Hfree|s i wi generated Hi Hwi|s i Hi]; subst; simpl in *.
  - lia.
  - destruct i as [|[|[|i]]]; simpl in *; done.
  - destruct i as [|[|[|i]]]; simpl in *; done.
Qed.

(** ** The collection of the results *)




Example all_failed_is_fatal :
  aggregate [badResult "a.ts" "boom"; badResult "c.ts" "bang"] = Fatal "all generations failed".
Proof. vm_compute. done. Qed.


(** * Further properties of the sources *)

(** ** Strings *)

Lemma append_cons a (s t : string) : String a s +:+ t = String a (s +:+ t).
Proof. reflexivity. Qed.

Lemma append_nil_l (t : string) : "" +:+ t = t.
Proof. reflexivity. Qed.

(** [simpl] leaves [+:+] alone; this unfolds it on its first argument. *)
Ltac simpl_app := simpl; repeat (rewrite append_cons || rewrite append_nil_l); simpl.

Lemma append_nil_r (s : string) : s +:+ "" = s.
Proof. induction s as [|a s IH]; simpl_app; [done|by rewrite IH]. Qed.

Lemma append_assoc (a b c : string) : (a +:+ b) +:+ c = a +:+ (b +:+ c).
Proof. induction a as [|x a IH]; simpl_app; [done|by rewrite IH]. Qed.




Lemma allChars_append P a b :
  allChars P (a +:+ b) = allChars P a && allChars P b.
Proof.
  induction a as [|x a IH]; simpl_app; [done|]. rewrite IH. by rewrite andb_assoc.
Qed.

Lemma allChars_rev_onto P s acc :
  allChars P (rev_onto s acc) = allChars P s && allChars P acc.
Proof.
  revert acc. induction s as [|a s IH]; intros acc; simpl; [done|].
  rewrite IH. simpl. destruct (P a), (allChars P s), (allChars P acc); done.
Qed.

Lemma allChars_rev P s : allChars P (rev s) = allChars P s.
Proof. unfold rev. rewrite allChars_rev_onto. simpl. by rewrite andb_true_r. Qed.

Lemma allChars_TrimLeftFunc P f s :
  allChars P s = true → allChars P (TrimLeftFunc f s) = true.
Proof.
  induction s as [|a s IH]; simpl; [done|].
  intros [Ha Hs]%andb_true_iff. destruct (f a); [by apply IH|].
  simpl. by rewrite Ha, Hs.
Qed.

Lemma allChars_TrimFunc P f s :
  allChars P s = true → allChars P (TrimFunc f s) = true.
Proof.
  intros H. unfold TrimFunc.
  rewrite allChars_rev. apply allChars_TrimLeftFunc.
  rewrite allChars_rev. by apply allChars_TrimLeftFunc.
Qed.

Lemma allChars_sliceTo P n s : allChars P s = true → allChars P (sliceTo n s) = true.
Proof.
  revert n. induction s as [|a s IH]; intros [|n]; simpl; try done.
  intros [Ha Hs]%andb_true_iff. rewrite Ha. simpl. by apply IH.
Qed.

Lemma allChars_sliceFrom P n s :
  allChars P s = true → allChars P (sliceFrom n s) = true.
Proof.
  revert n. induction s as [|a s IH]; intros [|n]; simpl; try done.
  intros [Ha Hs]%andb_true_iff. by apply IH.
Qed.

Lemma allChars_weaken (P Q : ascii → bool) s :
  (∀ c, P c = true → Q c = true) → allChars P s = true → allChars Q s = true.
Proof.
  intros HPQ. induction s as [|a s IH]; simpl; [done|].
  intros [Ha Hs]%andb_true_iff. rewrite (HPQ _ Ha). simpl. by apply IH.
Qed.

Lemma rev_onto_append s acc : rev_onto s acc = rev s +:+ acc.
Proof.
  unfold rev. revert acc. induction s as [|a s IH]; intros acc; simpl; [done|].
  rewrite IH, (IH (String a "")), append_assoc. done.
Qed.

Lemma rev_cons a s : rev (String a s) = rev s +:+ String a "".
Proof. unfold rev at 1. simpl. apply rev_onto_append. Qed.

Lemma rev_append a b : rev (a +:+ b) = rev b +:+ rev a.
Proof.
  induction a as [|x a IH]; simpl_app.
  - by rewrite append_nil_r.
  - rewrite !rev_cons, IH, append_assoc. done.
Qed.

Lemma rev_involutive s : rev (rev s) = s.
Proof.
  induction s as [|a s IH]; [done|].
  rewrite rev_cons, rev_append, IH. done.
Qed.

(** What is left after trimming on the left does not start in the class. *)
Lemma TrimLeftFunc_starts f s : startsIn f (TrimLeftFunc f s) = false.
Proof.
  induction s as [|a s IH]; simpl; [done|].
  destruct (f a) eqn:E; [done|]. simpl. done.
Qed.

(** Trimming on the left keeps the last byte of a text that does not end in
    the class. *)
Lemma TrimLeftFunc_keeps_end f s a :
  f a = false → ∃ w, TrimLeftFunc f (s +:+ String a "") = w +:+ String a "".
Proof.
  intros Ha. induction s as [|b s IH]; simpl_app.
  - rewrite Ha. by exists "".
  - destruct (f b); [done|]. by exists (String b s).
Qed.

Lemma TrimFunc_edges f s :
  startsIn f (TrimFunc f s) = false ∧ endsIn f (TrimFunc f s) = false.
Proof.
  unfold TrimFunc, endsIn. rewrite rev_involutive. split; [|apply TrimLeftFunc_starts].
  pose proof (TrimLeftFunc_starts f s) as Hs.
  destruct (TrimLeftFunc f s) as [|a t]; [done|]. simpl in Hs.
  rewrite rev_cons.
  destruct (TrimLeftFunc_keeps_end f (rev t) a Hs) as [w ->].
  rewrite rev_append. simpl_app. done.
Qed.

Lemma IndexAny_Some s chars idx :
  IndexAny s chars = Some idx →
  allChars (λ c, negb (mem c chars)) (sliceTo idx s) = true.
Proof.
  revert idx. induction s as [|a s IH]; intros idx; simpl; [done|].
  destruct (mem a chars) eqn:E.
  - by intros [= <-].
  - destruct (IndexAny s chars) as [j|] eqn:Ej; [|done].
    intros [= <-]. simpl. rewrite E. simpl. by apply IH.
Qed.

Lemma IndexAny_None s chars :
  IndexAny s chars = None → allChars (λ c, negb (mem c chars)) s = true.
Proof.
  induction s as [|a s IH]; simpl; [done|].
  destruct (mem a chars) eqn:E; [done|].
  destruct (IndexAny s chars); [done|]. intros _. simpl. by apply IH.
Qed.

Lemma split_onto_pieces sep s cur :
  allChars (λ c, negb (Ascii.eqb c sep)) cur = true →
  Forall (λ piece, allChars (λ c, negb (Ascii.eqb c sep)) piece = true)
         (split_onto sep s cur).
Proof.
  revert cur. induction s as [|a s IH]; intros cur Hcur; simpl.
  - constructor; [by rewrite allChars_rev|constructor].
  - destruct (Ascii.eqb a sep) eqn:E.
    + constructor; [by rewrite allChars_rev|]. by apply IH.
    + apply IH. simpl. by rewrite E, Hcur.
Qed.

(** No piece of a split holds the separator. *)
Lemma Split_pieces s sep :
  Forall (λ piece, allChars (λ c, negb (Ascii.eqb c sep)) piece = true) (Split s sep).
Proof. by apply split_onto_pieces. Qed.

Lemma split_onto_allChars P sep s cur :
  allChars P s = true → allChars P cur = true →
  Forall (λ piece, allChars P piece = true) (split_onto sep s cur).
Proof.
  revert cur. induction s as [|a s IH]; intros cur Hs Hcur; simpl.
  - constructor; [by rewrite allChars_rev|constructor].
  - simpl in Hs. apply andb_true_iff in Hs as [Ha Hs].
    destruct (Ascii.eqb a sep).
    + constructor; [by rewrite allChars_rev|]. by apply IH.
    + apply IH; [done|]. simpl. by rewrite Ha, Hcur.
Qed.

(** The pieces of a split hold only bytes of the text. *)
Lemma Split_allChars P s sep :
  allChars P s = true → Forall (λ piece, allChars P piece = true) (Split s sep).
Proof. intros Hs. by apply split_onto_allChars. Qed.

(** ** The matcher reports texts of the pattern *)


Section MatcherSound.

Context {A : Type}.


End MatcherSound.



(** ** What the extractor puts into a Symbol *)









(** X2: for a parameter list of ASCII text (where white space is the six
    bytes [TrimSpace] trims here), every name [parseParams] returns is
    ASCII text too, is not empty, holds none of the bytes a parameter is
    cut at (colon, equals sign) nor the comma the list is split on, and
    neither starts nor ends with white space. *)
Theorem parseParams_names (paramStr p : string) :
  allChars isASCII paramStr = true →
  p ∈ parseParams paramStr →
  p ≠ ""
  ∧ allChars isASCII p = true
  ∧ allChars (λ c, negb (isMarker c)) p = true
  ∧ allChars (λ c, negb (isComma c)) p = true
  ∧ startsIn isSpace p = false ∧ endsIn isSpace p = false.
Proof.
  intros Hascii. unfold parseParams.
  destruct (String.eqb (TrimSpace paramStr) ""); [by intros ?%elem_of_nil|].
  intros [Hne Hin]%list_elem_of_filter.
  apply list_elem_of_fmap in Hin as (piece & -> & Hpiece).
  pose proof (Split_pieces paramStr ",") as Hsplit.
  rewrite Forall_forall in Hsplit. specialize (Hsplit _ Hpiece).
  pose proof (Split_allChars isASCII paramStr "," Hascii) as Hsplit'.
  rewrite Forall_forall in Hsplit'. specialize (Hsplit' _ Hpiece).
  unfold parseParam in *.
  split_and!; [done| | | |apply TrimFunc_edges..].
  - apply allChars_TrimFunc.
    assert (Ht : allChars isASCII (TrimSpace piece) = true)
      by (by apply allChars_TrimFunc).
    destruct (IndexAny (TrimSpace piece) ":="); [by apply allChars_sliceTo|done].
  - apply allChars_TrimFunc.
    destruct (IndexAny (TrimSpace piece) ":=") as [idx|] eqn:E.
    + by apply IndexAny_Some.
    + by apply IndexAny_None.
  - apply allChars_TrimFunc.
    assert (Ht : allChars (λ c, negb (isComma c)) (TrimSpace piece) = true)
      by (by apply allChars_TrimFunc).
    destruct (IndexAny (TrimSpace piece) ":="); [by apply allChars_sliceTo|done].
Qed.

Lemma parseParams_names_witness :
  allChars isASCII " a : number ,b?: string, " = true
  ∧ "b?" ∈ parseParams " a : number ,b?: string, "
  ∧ allChars (λ c, negb (isMarker c)) "b?" = true
  ∧ startsIn isSpace "b?" = false.
Proof.
  assert (Hascii : allChars isASCII " a : number ,b?: string, " = true)
    by reflexivity.
  assert (Hin : "b?" ∈ parseParams " a : number ,b?: string, ").
  { replace (parseParams " a : number ,b?: string, ") with ["a"; "b?"]
      by (vm_compute; reflexivity).
    right. by left. }
  destruct (parseParams_names _ _ Hascii Hin) as (_ & _ & Hm & _ & Hs & _).
  split_and!; [exact Hascii|exact Hin|exact Hm|exact Hs].
Defined.

Lemma Index_Contains s sub idx : Index s sub = Some idx → Contains s sub = true.
Proof.
  revert idx. induction s as [|a s IH]; intros idx.
  - destruct sub; simpl; done.
  - change (Index (String a s) sub)
      with (if HasPrefix (String a s) sub then Some 0 else S <$> Index s sub).
    change (Contains (String a s) sub)
      with (HasPrefix (String a s) sub || Contains s sub).
    destruct (HasPrefix (String a s) sub); [done|].
    destruct (Index s sub) as [j|] eqn:Ej; [|done].
    intros _. simpl. by eapply IH.
Qed.

(** X3: for a source of ASCII text (where white space is the six bytes
    [TrimSpace] trims here), every dependency [extractDependencies]
    returns is ASCII text too, is not empty, has no quote left at either
    end, and comes from a line of the text that, once trimmed, starts with
    the import keyword and holds the word [from]. *)
Theorem extractDependencies_entries (code dep : string) :
  allChars isASCII code = true →
  dep ∈ extractDependencies code →
  dep ≠ ""
  ∧ allChars isASCII dep = true
  ∧ startsIn isQuote dep = false ∧ endsIn isQuote dep = false
  ∧ ∃ line, line ∈ Split code (ascii_of_N 10)
            ∧ HasPrefix (TrimSpace line) "import " = true
            ∧ Contains (TrimSpace line) "from" = true.
Proof.
  intros Hascii.
  unfold extractDependencies. intros (line & Hline & Hdep)%list_elem_of_omap.
  pose proof (Split_allChars isASCII code (ascii_of_N 10) Hascii) as Hsplit.
  rewrite Forall_forall in Hsplit. specialize (Hsplit _ Hline).
  unfold dependencyOf in Hdep.
  destruct (HasPrefix (TrimSpace line) "import ") eqn:Himp; [|done].
  destruct (Index (TrimSpace line) "from") as [idx|] eqn:Hidx; [|done].
  match type of Hdep with
  | (if String.eqb ?t "" then _ else _) = _ =>
      destruct (String.eqb_spec t "") as [|Hne]; [done|]
  end.
  injection Hdep as <-.
  split_and!; [done| |apply (TrimFunc_edges isQuote)..|].
  - unfold Trim, TrimSpace.
    by do 2 apply allChars_TrimFunc; apply allChars_sliceFrom, allChars_TrimFunc.
  - exists line. split_and!; [done..|]. by eapply Index_Contains.
Qed.

Lemma extractDependencies_entries_witness :
  allChars isASCII ("import { b } from './b'" +:+ nl +:+ "export const x = 1") = true
  ∧ "./b" ∈ extractDependencies ("import { b } from './b'" +:+ nl +:+ "export const x = 1")
  ∧ startsIn isQuote "./b" = false ∧ endsIn isQuote "./b" = false.
Proof.
  assert (Hascii : allChars isASCII
                     ("import { b } from './b'" +:+ nl +:+ "export const x = 1") = true)
    by reflexivity.
  assert (Hin : "./b" ∈ extractDependencies
                  ("import { b } from './b'" +:+ nl +:+ "export const x = 1")).
  { replace (extractDependencies _) with ["./b"] by (vm_compute; reflexivity). by left. }
  destruct (extractDependencies_entries _ _ Hascii Hin) as (_ & _ & Hs & He & _).
  split_and!; [exact Hascii|exact Hin|exact Hs|exact He].
Defined.

(** ** Substrings *)

Lemma HasPrefix_nil s : HasPrefix s "" = true.
Proof. by destruct s. Qed.

Lemma HasPrefix_append s p : HasPrefix (p +:+ s) p = true.
Proof.
  induction p as [|a p IH]; simpl_app; [apply HasPrefix_nil|].
  by rewrite Ascii.eqb_refl.
Qed.

Lemma HasPrefix_append_l a b p : HasPrefix a p = true → HasPrefix (a +:+ b) p = true.
Proof.
  revert a. induction p as [|x p IH]; intros [|y a]; simpl_app; try done.
  - intros _. apply HasPrefix_nil.
  - destruct (Ascii.eqb x y); [apply IH|done].
Qed.

Lemma Contains_unfold s sub :
  Contains s sub
  = HasPrefix s sub || match s with
                       | EmptyString => false
                       | String _ s' => Contains s' sub
                       end.
Proof. by destruct s. Qed.

Lemma Contains_cons a s sub :
  Contains (String a s) sub = HasPrefix (String a s) sub || Contains s sub.
Proof. reflexivity. Qed.

Lemma Contains_prefix s sub : HasPrefix s sub = true → Contains s sub = true.
Proof. intros H. rewrite Contains_unfold, H. done. Qed.

Lemma Contains_append_r a b sub : Contains b sub = true → Contains (a +:+ b) sub = true.
Proof.
  intros H. induction a as [|x a IH]; [done|].
  rewrite append_cons, Contains_cons, IH. apply orb_true_r.
Qed.

Lemma Contains_append_l a b sub : Contains a sub = true → Contains (a +:+ b) sub = true.
Proof.
  induction a as [|x a IH].
  - rewrite Contains_unfold, orb_false_r. intros H. apply Contains_prefix.
    by apply (HasPrefix_append_l "" b).
  - rewrite Contains_cons. intros [H|H]%orb_true_iff.
    + apply Contains_prefix. by apply HasPrefix_append_l.
    + rewrite append_cons, Contains_cons, (IH H). apply orb_true_r.
Qed.

Lemma Contains_cat pieces piece sub :
  piece ∈ pieces → Contains piece sub = true → Contains (cat pieces) sub = true.
Proof.
  intros Hin Hsub. induction pieces as [|p ps IH]; [by apply elem_of_nil in Hin|].
  unfold cat. simpl. fold (cat ps).
  apply elem_of_cons in Hin as [<-|Hin].
  - by apply Contains_append_l.
  - apply Contains_append_r. by apply IH.
Qed.

(** ** Scenarios and the blocks that render them *)

Lemma scenario_names exp scenario :
  scenario ∈ generateBasicScenarios exp →
  ∃ suffix, ts_Name scenario = Name exp +:+ suffix.
Proof.
  unfold generateBasicScenarios. rewrite !elem_of_app.
  intros [H|[H|[H|H]]].
  - apply list_elem_of_singleton in H as ->. simpl. eauto.
  - destruct (0 <? length (Parameters exp)); [|by apply elem_of_nil in H].
    apply list_elem_of_singleton in H as ->. simpl. eauto.
  - apply list_elem_of_singleton in H as ->. simpl. eauto.
  - destruct (IsAsync exp); [|by apply elem_of_nil in H].
    apply list_elem_of_singleton in H as ->. simpl. eauto.
Qed.

(** X4: the block of a symbol picks its scenarios by asking whether the
    scenario name holds the symbol name; every scenario synthesized for a
    symbol passes that test for its own symbol, so none is lost between the
    synthesizer and the renderer. *)
Theorem own_scenarios_are_rendered (exp : ExportedFunction) :
  filter (λ scenario, Contains (ts_Name scenario) (Name exp) = true)
         (generateBasicScenarios exp)
  = generateBasicScenarios exp.
Proof.
  assert (Hall : Forall (λ scenario, Contains (ts_Name scenario) (Name exp) = true)
                        (generateBasicScenarios exp)).
  { apply Forall_forall. intros scenario [suffix ->]%scenario_names.
    apply Contains_prefix, HasPrefix_append. }
  induction Hall as [|scenario l Hs _ IH]; [done|].
  by rewrite filter_cons_True, IH.
Qed.

Lemma elem_of_concat {A} (x : A) (ls : list (list A)) (l : list A) :
  l ∈ ls → x ∈ l → x ∈ concat ls.
Proof.
  intros Hl Hx. induction ls as [|l0 ls IH]; [by apply elem_of_nil in Hl|].
  simpl. apply elem_of_app. apply elem_of_cons in Hl as [<-|Hl]; [by left|].
  right. by apply IH.
Qed.

(** X5: the same test lets through the scenarios of any other symbol of
    the file whose name holds this symbol's name: in the local analysis of a
    text that exports [add] and [addAll], the block of [add] also renders
    every scenario of [addAll]. *)
Theorem scenarios_of_longer_names_are_rendered (filePath code : string)
    (sym other : exportedSymbol) (scenario : TestScenario) :
  sym ∈ extractExports code → other ∈ extractExports code →
  Contains (name other) (name sym) = true →
  scenario ∈ generateBasicScenarios (toExported other) →
  scenario ∈ filter (λ scenario, Contains (ts_Name scenario) (Name (toExported sym)) = true)
                    (an_TestScenarios (analyzeBasic filePath code)).
Proof.
  intros _ Hother Hname Hin. apply list_elem_of_filter. split.
  - destruct (scenario_names _ _ Hin) as [suffix ->]. by apply Contains_append_l.
  - simpl. eapply elem_of_concat; [|exact Hin].
    apply list_elem_of_fmap. exists (toExported other). split; [done|].
    apply list_elem_of_fmap. by exists other.
Qed.

(** Two exports of one file, the name of the second holding the first. *)
Lemma scenarios_of_longer_names_are_rendered_witness :
  addAllSymbol ∈ extractExports add_and_addAll
  ∧ Contains (name addAllSymbol) (name addSymbol) = true
  ∧ addAllHappyPath
    ∈ filter (λ scenario, Contains (ts_Name scenario) (Name (toExported addSymbol)) = true)
             (an_TestScenarios (analyzeBasic "m.ts" add_and_addAll)).
Proof.
  assert (Hx : extractExports add_and_addAll = [addSymbol; addAllSymbol])
    by (vm_compute; reflexivity).
  assert (Hsym : addSymbol ∈ extractExports add_and_addAll) by (rewrite Hx; by left).
  assert (Hother : addAllSymbol ∈ extractExports add_and_addAll)
    by (rewrite Hx; right; by left).
  assert (Hname : Contains (name addAllSymbol) (name addSymbol) = true) by reflexivity.
  assert (Hin : addAllHappyPath ∈ generateBasicScenarios (toExported addAllSymbol))
    by (vm_compute; by left).
  split_and!; [exact Hother|exact Hname|].
  exact (scenarios_of_longer_names_are_rendered "m.ts" add_and_addAll
           addSymbol addAllSymbol addAllHappyPath Hsym Hother Hname Hin).
Defined.

(** In the rendered block of [add]. *)
Example addAll_in_the_block_of_add :
  Contains (generateTestsForExport ascending (toExported addSymbol)
              (an_TestScenarios (analyzeBasic "m.ts" add_and_addAll))
              "vitest")
           "it('addAll - happy path'" = true.
Proof. vm_compute. reflexivity. Qed.

(** ** Sample values *)

Lemma generateSampleInputs_fold params (inputs : gmap string value) n :
  foldl (λ inputs param, <[p_Name param := generateSampleValue (p_Type param)]> inputs)
        inputs params !! n
  = match last (filter (λ param, p_Name param = n) params) with
    | Some param => Some (sampleOf param)
    | None => inputs !! n
    end.
Proof.
  revert inputs. induction params as [|param params IH]; intros inputs; [done|].
  simpl. rewrite IH.
  destruct (decide (p_Name param = n)) as [Heq|Hne].
  - rewrite filter_cons_True by done. rewrite last_cons.
    destruct (last (filter _ params)); [done|].
    rewrite Heq. by rewrite lookup_insert_eq.
  - rewrite filter_cons_False by done.
    destruct (last (filter _ params)); [done|].
    by rewrite lookup_insert_ne.
Qed.

(** X6: the sample inputs hold, under each parameter name, the sample value
    for the type of the last parameter of that name, and nothing under any
    other key: parameters that share a name collapse into one input. *)
Theorem generateSampleInputs_lookup (params : list Param) (n : string) :
  generateSampleInputs params !! n
  = sampleOf <$> last (filter (λ param, p_Name param = n) params).
Proof.
  unfold generateSampleInputs. rewrite generateSampleInputs_fold.
  destruct (last _); [done|]. by rewrite lookup_empty.
Qed.

(** X7: for a type written in ASCII text (where [ToLower] lowers as Go
    does), the two tables of sample literals, the one behind the scenario
    renderer ([formatValue] of [generateSampleValue]) and the one of the
    context-aware generator ([generateSampleInput]), differ on a number
    type and agree on every other: on a type whose lowered text holds
    [number] and not [string] the first prints [null], because the sample
    is a Go [int] and [formatValue] has a case for [float64] only, and the
    second prints [42]; on every other type the two print the same. *)
Theorem sample_literal_tables (typeStr : string) :
  allChars isASCII typeStr = true →
  (Contains (ToLower typeStr) "string" = false →
   Contains (ToLower typeStr) "number" = true →
     formatValue (generateSampleValue typeStr) = "null"
     ∧ generateSampleInput typeStr = "42")
  ∧ (Contains (ToLower typeStr) "string" = true
     ∨ Contains (ToLower typeStr) "number" = false →
       formatValue (generateSampleValue typeStr) = generateSampleInput typeStr).
Proof.
  intros _. unfold generateSampleValue, generateSampleInput. split.
  - by intros -> ->.
  - destruct (Contains (ToLower typeStr) "string"); [done|].
    intros [Hs|Hn]; [done|]. rewrite Hn.
    destruct (Contains (ToLower typeStr) "boolean"); [done|].
    destruct (Contains (ToLower typeStr) "array"); [done|].
    destruct (Contains (ToLower typeStr) "object"); done.
Qed.

Lemma sample_literal_tables_witness :
  allChars isASCII "Number" = true
  ∧ Contains (ToLower "Number") "string" = false
  ∧ Contains (ToLower "Number") "number" = true
  ∧ formatValue (generateSampleValue "Number") = "null"
  ∧ generateSampleInput "Number" = "42".
Proof.
  assert (Hascii : allChars isASCII "Number" = true) by reflexivity.
  assert (Hs : Contains (ToLower "Number") "string" = false) by reflexivity.
  assert (Hn : Contains (ToLower "Number") "number" = true) by reflexivity.
  destruct (sample_literal_tables "Number" Hascii) as [Hnum _].
  destruct (Hnum Hs Hn) as [Hfirst Hsecond].
  split_and!; [exact Hascii|exact Hs|exact Hn|exact Hfirst|exact Hsecond].
Defined.

(** ** The rendered file *)

Lemma generateTestCode_blocks tsPath exports sourceCode testSyntax sym :
  sym ∈ exports →
  Contains (generateTestCode tsPath exports sourceCode testSyntax)
           ("describe('" +:+ name sym +:+ "', () => {" +:+ nl) = true.
Proof.
  intros Hin. unfold generateTestCode.
  eapply Contains_cat; [do 8 right; by left|].
  eapply Contains_cat; [apply list_elem_of_fmap; by exists sym|].
  apply Contains_append_l. unfold generateTestForSymbol.
  eapply Contains_cat; [by left|].
  apply Contains_prefix. rewrite <- (append_nil_r ("describe('" +:+ _)) at 1.
  apply HasPrefix_append.
Qed.

Lemma HasPrefix_three a b c d e :
  HasPrefix (a +:+ (b +:+ ((c +:+ d) +:+ e))) (a +:+ b +:+ c) = true.
Proof.
  replace (a +:+ (b +:+ ((c +:+ d) +:+ e))) with ((a +:+ b +:+ c) +:+ (d +:+ e))
    by (by rewrite !append_assoc).
  apply HasPrefix_append.
Qed.

Lemma Contains_cat_three pre a b c d post :
  Contains (cat (pre ++ [a; b; c +:+ d] ++ post)) (a +:+ b +:+ c) = true.
Proof.
  induction pre as [|p pre IH].
  - apply Contains_prefix. unfold cat. simpl. apply HasPrefix_three.
  - unfold cat. simpl. fold (cat (pre ++ [a; b; c +:+ d] ++ post)).
    by apply Contains_append_r.
Qed.

Lemma generateTestCode_import tsPath exports sourceCode testSyntax :
  Contains (generateTestCode tsPath exports sourceCode testSyntax)
           ("import { " +:+ join ", " (map name exports) +:+ " } from '../") = true.
Proof.
  unfold generateTestCode.
  exact (Contains_cat_three
           [ "/**" +:+ nl; " * Auto-generated test file" +:+ nl;
             " * Source: " +:+ tsPath +:+ nl; " */" +:+ nl +:+ nl ]
           "import { " (join ", " (map name exports)) " } from '../" _ _).
Qed.

(** X8: when [GenerateTest] succeeds, the text it returns imports every
    extracted name from the module in one statement and holds one
    [describe] block opened under the name of each extracted Symbol. *)
Theorem GenerateTest_contract (tsPath code framework text : string) :
  GenerateTest tsPath code framework = inr text →
  Contains text ("import { " +:+ join ", " (map name (extractExports code))
                 +:+ " } from '../") = true
  ∧ ∀ sym, sym ∈ extractExports code →
      Contains text ("describe('" +:+ name sym +:+ "', () => {" +:+ nl) = true.
Proof.
  unfold GenerateTest.
  destruct (length (extractExports code) =? 0); [done|].
  intros [= <-]. split.
  - apply generateTestCode_import.
  - intros sym Hin. by apply generateTestCode_blocks.
Qed.

Lemma GenerateTest_contract_witness :
  GenerateTest "add.ts" add_ts "vitest" = inr add_spec_ts
  ∧ Contains add_spec_ts ("import { " +:+ join ", " (map name (extractExports add_ts))
                          +:+ " } from '../") = true.
Proof.
  assert (Hrun : GenerateTest "add.ts" add_ts "vitest" = inr add_spec_ts)
    by (vm_compute; reflexivity).
  split; [exact Hrun|].
  exact (proj1 (GenerateTest_contract "add.ts" add_ts "vitest" add_spec_ts Hrun)).
Defined.

(** ** The index and its read operations *)

Lemma foldl_invariant {A B} (P : A → Prop) (f : A → B → A) (l : list B) (a : A) :
  P a → (∀ a x, x ∈ l → P a → P (f a x)) → P (foldl f a l).
Proof.
  revert a. induction l as [|x l IH]; intros a Ha Hstep; [done|].
  simpl. apply IH.
  - apply Hstep; [by left|done].
  - intros a' y Hy. apply Hstep. by right.
Qed.

Lemma firstIndexed_Some code resolvedPath exts searchPath text :
  firstIndexed code resolvedPath exts = Some (searchPath, text) →
  code !! searchPath = Some text
  ∧ ∃ ext, ext ∈ exts ∧ searchPath = resolvedPath +:+ ext.
Proof.
  induction exts as [|ext exts IH]; simpl; [done|].
  destruct (code !! (resolvedPath +:+ ext)) as [t|] eqn:E.
  - intros [= <- <-]. split; [done|]. exists ext. split; [by left|done].
  - intros H. destruct (IH H) as (Hc & ext' & Hin & ->).
    split; [done|]. exists ext'. split; [by right|done].
Qed.

(** One turn of the loop of [GetRelatedCode]: the entry was there before,
    or it is the indexed file the import resolves to. *)
Lemma related_step ace targetFile (related : gmap string string) dep p text :
  (if HasPrefix dep "." then
     match firstIndexed (IndexedCode ace)
             (Filepath.Clean (Filepath.Join (Filepath.Dir targetFile) dep))
             resolveExts with
     | Some (searchPath, found) => <[searchPath := found]> related
     | None => related
     end
   else related) !! p = Some text →
  related !! p = Some text
  ∨ (IndexedCode ace !! p = Some text ∧ resolvesTo targetFile dep p).
Proof.
  destruct (HasPrefix dep ".") eqn:Hdot; [|by left].
  destruct (firstIndexed _ _ _) as [[searchPath found]|] eqn:Hfirst; [|by left].
  apply firstIndexed_Some in Hfirst as (Hcode & ext & Hext & ->).
  rewrite lookup_insert. case_decide as Heq; [|by left].
  intros [= <-]. subst p. right. split; [done|]. split; [done|]. by exists ext.
Qed.

(** X9: every entry of the related code is a file of the index with the
    text stored for it, and it is what a relative import of the target
    resolves to under one of the four fixed endings; imports that do not
    start with a dot add nothing. *)
Theorem GetRelatedCode_indexed (ace : AugmentContextEngine) (targetFile p text : string) :
  GetRelatedCode ace targetFile !! p = Some text →
  Initialized ace = true
  ∧ IndexedCode ace !! p = Some text
  ∧ ∃ deps dep, Dependencies ace !! targetFile = Some deps ∧ dep ∈ deps
                ∧ resolvesTo targetFile dep p.
Proof.
  unfold GetRelatedCode.
  destruct (Initialized ace); simpl; [|by rewrite lookup_empty].
  destruct (Dependencies ace !! targetFile) as [deps|] eqn:Hdeps; simpl;
    [|by rewrite lookup_empty].
  destruct (length deps =? 0); [by rewrite lookup_empty|].
  intros Hp. split; [done|].
  revert p text Hp.
  apply (foldl_invariant
           (λ related : gmap string string, ∀ p text, related !! p = Some text →
              IndexedCode ace !! p = Some text
              ∧ ∃ deps' dep, Some deps = Some deps' ∧ dep ∈ deps'
                             ∧ resolvesTo targetFile dep p)).
  - intros p text. by rewrite lookup_empty.
  - intros related dep Hdep IH p text Hlook.
    apply (related_step ace targetFile related dep p text) in Hlook as [Hold|[Hcode Hres]].
    + by apply IH.
    + split; [done|]. by exists deps, dep.
Qed.

Lemma GetRelatedCode_indexed_witness :
  GetRelatedCode mathProject "a.ts" !! "b.ts" = Some "export function add(p, q) {}"
  ∧ IndexedCode mathProject !! "b.ts" = Some "export function add(p, q) {}".
Proof.
  assert (H : GetRelatedCode mathProject "a.ts" !! "b.ts"
              = Some "export function add(p, q) {}") by (vm_compute; reflexivity).
  split; [exact H|].
  exact (proj1 (proj2 (GetRelatedCode_indexed mathProject "a.ts" "b.ts" _ H))).
Defined.

Lemma fair_keys {V} (ord : range_order V) (m : gmap string V) p :
  fair ord → p ∈ (ord m).*1 ↔ is_Some (m !! p).
Proof.
  intros Hfair. rewrite (Hfair m). rewrite list_elem_of_fmap. split.
  - intros ([k v] & -> & Hin). apply elem_of_map_to_list in Hin. by exists v.
  - intros [v Hv]. exists (p, v). split; [done|]. by apply elem_of_map_to_list.
Qed.

Lemma export_context_fold (exports : gmap string (list ExportedFunction))
    (entries : list (string * string)) (context : gmap string (list ExportedFunction)) p :
  foldl (λ context kv,
           match exports !! kv.1 with
           | Some exps => <[kv.1 := exps]> context
           | None => context
           end) context entries !! p
  = if decide (p ∈ entries.*1)
    then match exports !! p with Some exps => Some exps | None => context !! p end
    else context !! p.
Proof.
  revert context. induction entries as [|[k v] entries IH]; intros context.
  - cbn [foldl]. destruct (decide _) as [Hin|]; [|done].
    rewrite fmap_nil in Hin. by apply elem_of_nil in Hin.
  - cbn [foldl]. rewrite IH. cbn [fst].
    assert (Hctx : p ≠ k →
                   (match exports !! k with
                    | Some exps => <[k:=exps]> context
                    | None => context
                    end) !! p = context !! p).
    { intros Hne. destruct (exports !! k); [by rewrite lookup_insert_ne|done]. }
    destruct (decide (p ∈ entries.*1)) as [Hin|Hnot];
      destruct (decide (p ∈ ((k, v) :: entries).*1)) as [Hin'|Hnot'].
    + destruct (exports !! p) as [exps|] eqn:E; [done|].
      destruct (decide (p = k)) as [->|Hne]; [by rewrite E|by apply Hctx].
    + destruct Hnot'. rewrite fmap_cons. by right.
    + rewrite fmap_cons in Hin'. apply elem_of_cons in Hin' as [->|?]; [|done].
      simpl. destruct (exports !! k) as [exps|] eqn:E; [|done].
      by rewrite lookup_insert_eq.
    + apply Hctx. intros ->. destruct Hnot'. rewrite fmap_cons. by left.
Qed.

(** X10: whatever order the range over the related files takes, the export
    context is the index of exports cut down to the related files. *)
Theorem GetExportContext_lookup (ro : rangeOrders) (ace : AugmentContextEngine)
    (targetFile p : string) :
  fair (ord_code ro) →
  GetExportContext ro ace targetFile !! p
  = match GetRelatedCode ace targetFile !! p with
    | Some _ => Exports ace !! p
    | None => None
    end.
Proof.
  intros Hfair. unfold GetExportContext.
  destruct (Initialized ace) eqn:Hinit; simpl.
  - rewrite export_context_fold, lookup_empty.
    destruct (decide _) as [Hin|Hnot].
    + apply (fair_keys _ _ _ Hfair) in Hin as [text ->]. by destruct (Exports ace !! p).
    + destruct (GetRelatedCode ace targetFile !! p) eqn:E; [|done].
      destruct Hnot. apply (fair_keys _ _ _ Hfair). by eexists.
  - unfold GetRelatedCode. rewrite Hinit. simpl. by rewrite !lookup_empty.
Qed.

Lemma GetExportContext_lookup_witness :
  fair (ord_code descendingOrders)
  ∧ GetExportContext descendingOrders mathProject "a.ts" !! "b.ts"
    = Exports mathProject !! "b.ts".
Proof.
  split; [apply fair_descending|].
  rewrite (GetExportContext_lookup descendingOrders mathProject "a.ts" "b.ts"
             fair_descending).
  vm_compute. reflexivity.
Defined.

Lemma foldl_sum {A} (f : A → nat) (l : list A) (a : nat) :
  foldl (λ n x, n + f x) a l = a + sum_list_with f l.
Proof.
  revert a. induction l as [|x l IH]; intros a; simpl; [lia|]. rewrite IH. lia.
Qed.

(** X11: the statistics do not depend on the order of the ranges that add
    them up. *)
Theorem GetProjectStats_order_independent (ro ro' : rangeOrders)
    (ace : AugmentContextEngine) :
  fairOrders ro → fairOrders ro' →
  GetProjectStats ro ace = GetProjectStats ro' ace.
Proof.
  intros (_ & He & Hd & _) (_ & He' & Hd' & _). unfold GetProjectStats.
  destruct (Initialized ace); simpl; [|done].
  rewrite !(foldl_sum (λ kv : string * list ExportedFunction, length kv.2)).
  rewrite !(foldl_sum (λ kv : string * list string, length kv.2)).
  rewrite (He (Exports ace)), (He' (Exports ace)).
  rewrite (Hd (Dependencies ace)), (Hd' (Dependencies ace)). done.
Qed.

Lemma GetProjectStats_order_independent_witness :
  fairOrders ascendingOrders ∧ fairOrders descendingOrders
  ∧ GetProjectStats ascendingOrders mathProject
    = GetProjectStats descendingOrders mathProject.
Proof.
  split_and!; [apply fair_ascendingOrders|apply fair_descendingOrders|].
  exact (GetProjectStats_order_independent _ _ mathProject
           fair_ascendingOrders fair_descendingOrders).
Defined.

(** ** Similar files *)

Lemma firstFiles_subset files result limit x :
  x ∈ firstFiles files result limit → x ∈ result ∨ x ∈ files.
Proof.
  revert result. induction files as [|file files IH]; intros result; simpl; [by left|].
  destruct (limit <=? Z.of_nat (length (result ++ [file])))%Z.
  - intros [?|Hx%list_elem_of_singleton]%elem_of_app; [by left|subst; right; by left].
  - intros [[?|Hx%list_elem_of_singleton]%elem_of_app|?]%IH;
      [by left|subst; right; by left|right; by right].
Qed.

Lemma FindSimilarFiles_cases ro ace targetFile limit :
  FindSimilarFiles ro ace targetFile limit = []
  ∨ ((1 ≤ limit)%Z
     ∧ FindSimilarFiles ro ace targetFile limit
       = take (Z.to_nat limit) (map fst (ord_scores ro (similarScores ro ace targetFile)))).
Proof.
  unfold FindSimilarFiles.
  destruct (Initialized ace); simpl; [|by left].
  destruct (Z.leb_spec limit 0); [by left|].
  destruct (length (default [] (Exports ace !! targetFile)) =? 0); [by left|].
  right. split; [lia|]. rewrite firstFiles_take by (simpl; lia).
  simpl. by rewrite Nat.sub_0_r.
Qed.

(** X12: never more files than the limit come back, and, when the range
    over the scores is a range over a map, none of them twice. *)
Theorem FindSimilarFiles_bounded (ro : rangeOrders) (ace : AugmentContextEngine)
    (targetFile : string) (limit : Z) :
  length (FindSimilarFiles ro ace targetFile limit) ≤ Z.to_nat limit
  ∧ (fair (ord_scores ro) → NoDup (FindSimilarFiles ro ace targetFile limit)).
Proof.
  destruct (FindSimilarFiles_cases ro ace targetFile limit) as [->|[Hlimit ->]].
  - split; [simpl; lia|intros _; constructor].
  - split; [rewrite length_take; lia|].
    intros Hfair. eapply sublist_NoDup; [|apply sublist_take].
    rewrite (Hfair (similarScores ro ace targetFile)).
    apply NoDup_fst_map_to_list.
Qed.

Lemma FindSimilarFiles_bounded_witness :
  fair (ord_scores descendingOrders)
  ∧ length (FindSimilarFiles descendingOrders mathProject "a.ts" 1) ≤ Z.to_nat 1
  ∧ NoDup (FindSimilarFiles descendingOrders mathProject "a.ts" 1).
Proof.
  destruct (FindSimilarFiles_bounded descendingOrders mathProject "a.ts" 1) as [Hlen Hnd].
  split_and!; [apply fair_descending|exact Hlen|exact (Hnd fair_descending)].
Defined.

(** The owners listed under a name are files other than the target that
    the range over the exports met with an export of that name. *)
Lemma exportOwners_sound ro ace targetFile n fs f :
  exportOwners ro ace targetFile !! n = Some fs → f ∈ fs →
  f ≠ targetFile
  ∧ ∃ exps e, (f, exps) ∈ ord_exports ro (Exports ace) ∧ e ∈ exps ∧ Name e = n.
Proof.
  unfold exportOwners. revert n fs f.
  apply (foldl_invariant
           (λ owners : gmap string (list string), ∀ n fs f,
              owners !! n = Some fs → f ∈ fs →
              f ≠ targetFile
              ∧ ∃ exps e, (f, exps) ∈ ord_exports ro (Exports ace)
                          ∧ e ∈ exps ∧ Name e = n)).
  - intros n fs f. by rewrite lookup_empty.
  - intros owners [file exps] Hkv IH. cbn [fst snd].
    destruct (String.eqb_spec file targetFile) as [|Hne]; [exact IH|].
    apply (foldl_invariant
             (λ owners : gmap string (list string), ∀ n fs f,
                owners !! n = Some fs → f ∈ fs →
                f ≠ targetFile
                ∧ ∃ exps e, (f, exps) ∈ ord_exports ro (Exports ace)
                            ∧ e ∈ exps ∧ Name e = n)); [exact IH|].
    intros owners' e He IH' n fs f. unfold addOwner.
    rewrite lookup_insert. case_decide as Hn; [|apply IH'].
    intros [= <-] [Hold|Hnew%list_elem_of_singleton]%elem_of_app.
    + destruct (owners' !! Name e) as [old|] eqn:E; simpl in Hold;
        [|by apply elem_of_nil in Hold].
      subst n. by eapply IH'.
    + subst f. split; [done|]. by exists exps, e.
Qed.

(** A file with a score is owner of a name the target exports. *)
Lemma similarScores_sound ro ace targetFile f c :
  similarScores ro ace targetFile !! f = Some c →
  ∃ texps te fs, Exports ace !! targetFile = Some texps ∧ te ∈ texps
                 ∧ exportOwners ro ace targetFile !! Name te = Some fs ∧ f ∈ fs.
Proof.
  unfold similarScores.
  destruct (Exports ace !! targetFile) as [texps|] eqn:Ht; simpl;
    [|by rewrite lookup_empty].
  revert f c.
  apply (foldl_invariant
           (λ scores : gmap string nat, ∀ f c, scores !! f = Some c →
              ∃ texps' te fs, Some texps = Some texps' ∧ te ∈ texps'
                ∧ exportOwners ro ace targetFile !! Name te = Some fs ∧ f ∈ fs)).
  - intros f c. by rewrite lookup_empty.
  - intros scores te Hte IH.
    destruct (exportOwners ro ace targetFile !! Name te) as [files|] eqn:Ho; [|exact IH].
    apply (foldl_invariant
             (λ scores : gmap string nat, ∀ f c, scores !! f = Some c →
                ∃ texps' te fs, Some texps = Some texps' ∧ te ∈ texps'
                  ∧ exportOwners ro ace targetFile !! Name te = Some fs ∧ f ∈ fs));
      [exact IH|].
    intros scores' file Hfile IH' f c. unfold bump.
    rewrite lookup_insert. case_decide as Hf; [|apply IH'].
    intros _. subst f. by exists texps, te, files.
Qed.

(** X13: with ranges that are ranges over maps, every file returned as
    similar is a file of the index other than the target that exports a
    name the target exports too. *)
Theorem FindSimilarFiles_sound (ro : rangeOrders) (ace : AugmentContextEngine)
    (targetFile : string) (limit : Z) (f : string) :
  fair (ord_exports ro) → fair (ord_scores ro) →
  f ∈ FindSimilarFiles ro ace targetFile limit →
  f ≠ targetFile ∧ sharesName ace f targetFile.
Proof.
  intros Hexports Hscores Hin.
  destruct (FindSimilarFiles_cases ro ace targetFile limit) as [Hnil|[_ Heq]].
  { rewrite Hnil in Hin. by apply elem_of_nil in Hin. }
  rewrite Heq in Hin. apply subseteq_take in Hin.
  apply (fair_keys _ _ _ Hscores) in Hin as [c Hc].
  apply similarScores_sound in Hc as (texps & te & fs & Ht & Hte & Ho & Hf).
  destruct (exportOwners_sound _ _ _ _ _ _ Ho Hf) as (Hne & exps & e & Hkv & He & Hname).
  split; [done|].
  rewrite (Hexports (Exports ace)) in Hkv. apply elem_of_map_to_list in Hkv.
  by exists exps, texps, e, te.
Qed.

Lemma FindSimilarFiles_sound_witness :
  fair (ord_exports descendingOrders) ∧ fair (ord_scores descendingOrders)
  ∧ "b.ts" ∈ FindSimilarFiles descendingOrders mathProject "a.ts" 1
  ∧ "b.ts" ≠ "a.ts" ∧ sharesName mathProject "b.ts" "a.ts".
Proof.
  assert (Hin : "b.ts" ∈ FindSimilarFiles descendingOrders mathProject "a.ts" 1).
  { replace (FindSimilarFiles descendingOrders mathProject "a.ts" 1) with ["b.ts"]
      by (vm_compute; reflexivity).
    by left. }
  destruct (FindSimilarFiles_sound descendingOrders mathProject "a.ts" 1 "b.ts"
              fair_descending fair_descending Hin) as [Hne Hshare].
  split_and!; [apply fair_descending|apply fair_descending|exact Hin|exact Hne|exact Hshare].
Defined.

(** ** What indexing stores *)

Lemma indexFile_consistent relPath text ace :
  consistent ace → consistent (indexFile relPath text ace).
Proof.
  intros Hc p. destruct (Hc p) as [He Hd]. unfold indexFile. simpl.
  rewrite !lookup_insert. case_decide; [done|]. by rewrite He, Hd.
Qed.

Lemma walk_consistent e :
  ∀ path rel ace, consistent ace → consistent (walk e path rel ace).1.
Proof.
  induction e as [n content|n entries IH|n err] using fsEntry_nested_ind;
    intros path rel ace Hc; simpl.
  - destruct (skipsFile path); [done|].
    destruct content; [by apply indexFile_consistent|done].
  - destruct (skipsDir path); [done|].
    revert ace Hc. induction IH as [|e' es' He' _ IHes]; intros ace Hc; [done|].
    specialize (He' (Filepath.Join path (entryName e')) (rel ++ [entryName e']) ace Hc).
    destruct (walk e' _ _ ace) as [ace' [err|]]; simpl in *; [done|].
    by apply IHes.
  - done.
Qed.

(** X14: whatever tree is walked, and also when the walk ends in an error,
    the index built from a new engine is consistent: a path has exports
    and dependencies exactly when it has a text, and they are what the two
    extractors read from that text; the stored exports carry no parameters,
    the extractor's parameter names being dropped on the way in. *)
Theorem IndexProject_consistent (root : fsEntry) (projectRoot : string) :
  consistent (IndexProject root (NewAugmentContextEngine projectRoot)).1
  ∧ ∀ p exps e,
      Exports (IndexProject root (NewAugmentContextEngine projectRoot)).1 !! p = Some exps →
      e ∈ exps → Parameters e = [].
Proof.
  assert (Hc : consistent (IndexProject root (NewAugmentContextEngine projectRoot)).1).
  { unfold IndexProject.
    pose proof (walk_consistent root projectRoot [] (NewAugmentContextEngine projectRoot)) as Hw.
    simpl in *.
    destruct (walk root projectRoot [] (NewAugmentContextEngine projectRoot))
      as [ace' [err|]]; simpl in *.
    - apply Hw. intros p. simpl. by rewrite !lookup_empty.
    - intros p. simpl. apply Hw. intros q. simpl. by rewrite !lookup_empty. }
  split; [exact Hc|].
  intros p exps e Hp He. destruct (Hc p) as [Hexp _]. rewrite Hp in Hexp.
  destruct (IndexedCode _ !! p) as [text|]; [|done].
  injection Hexp as ->. by apply list_elem_of_fmap in He as (sym & -> & _).
Qed.

Lemma IndexProject_consistent_witness :
  Exports mathProject !! "b.ts" = Some [toExported (mkSymbol "add" "function" false ["p"; "q"] false)]
  ∧ Parameters (toExported (mkSymbol "add" "function" false ["p"; "q"] false)) = []
  ∧ Dependencies mathProject !! "a.ts"
    = extractDependencies <$> IndexedCode mathProject !! "a.ts".
Proof.
  assert (Hb : Exports mathProject !! "b.ts"
               = Some [toExported (mkSymbol "add" "function" false ["p"; "q"] false)])
    by (vm_compute; reflexivity).
  destruct (IndexProject_consistent mathRoot "proj") as [Hc Hp].
  split_and!; [exact Hb| |exact (proj2 (Hc "a.ts"))].
  apply (Hp "b.ts" _ _ Hb). by left.
Defined.

(** ** The context-aware generator at the edges of the index *)

Lemma GetFileContext_exports ro ace targetFile :
  GetFileContext ro ace targetFile !! "exports"
  = if Initialized ace then Some (CtxExports (default [] (Exports ace !! targetFile)))
    else None.
Proof.
  unfold GetFileContext. destruct (Initialized ace); simpl; [|done].
  by rewrite !lookup_insert_ne, lookup_insert_eq by done.
Qed.

Lemma GetFileContext_related ro ace targetFile :
  GetFileContext ro ace targetFile !! "related_files"
  = if Initialized ace then Some (CtxRelated (GetRelatedCode ace targetFile)) else None.
Proof.
  unfold GetFileContext. destruct (Initialized ace); simpl; [|done].
  by rewrite !lookup_insert_ne, lookup_insert_eq by done.
Qed.

(** X15: with an engine that is not ready the context-aware generator
    falls back to the basic generator, called with an empty source path;
    with a ready engine the symbols come from the index alone: a file the
    index has no exports for fails with the condition of no exported
    symbols whatever its text holds, and a file with indexed exports is
    rendered from them without the text being read for symbols. *)
Theorem GenerateTestWithProjectContext_cases (ro : rangeOrders)
    (ctg : ContextAwareTestGenerator) (filePath code : string) :
  (Initialized (ContextEngine ctg) = false →
     GenerateTestWithProjectContext ro ctg filePath code
     = GenerateTest "" code (Framework ctg))
  ∧ (Initialized (ContextEngine ctg) = true →
     default [] (Exports (ContextEngine ctg) !! filePath) = [] →
     GenerateTestWithProjectContext ro ctg filePath code = inl (errNoExports filePath))
  ∧ (Initialized (ContextEngine ctg) = true →
     default [] (Exports (ContextEngine ctg) !! filePath) ≠ [] →
     GenerateTestWithProjectContext ro ctg filePath code
     = inr (generateTestCodeWithContext (ord_code ro) ctg filePath code
              (default [] (Exports (ContextEngine ctg) !! filePath))
              (GetRelatedCode (ContextEngine ctg) filePath))).
Proof.
  unfold GenerateTestWithProjectContext.
  rewrite GetFileContext_exports, GetFileContext_related.
  split_and!; intros Hinit; rewrite Hinit; [done| |].
  - intros ->. done.
  - intros Hne. destruct (default [] _) as [|e exps]; done.
Qed.

Lemma GenerateTestWithProjectContext_cases_witness :
  Initialized (NewAugmentContextEngine "proj") = false
  ∧ GenerateTestWithProjectContext ascendingOrders
      (mkGenerator (NewAugmentContextEngine "proj") "vitest") "add.ts" add_ts
    = GenerateTest "" add_ts "vitest"
  ∧ Initialized mathProject = true
  ∧ default [] (Exports mathProject !! "add.ts") = []
  ∧ GenerateTestWithProjectContext ascendingOrders
      (mkGenerator mathProject "vitest") "add.ts" add_ts
    = inl (errNoExports "add.ts").
Proof.
  destruct (GenerateTestWithProjectContext_cases ascendingOrders
              (mkGenerator (NewAugmentContextEngine "proj") "vitest") "add.ts" add_ts)
    as (Hfresh & _ & _).
  destruct (GenerateTestWithProjectContext_cases ascendingOrders
              (mkGenerator mathProject "vitest") "add.ts" add_ts)
    as (_ & Hmissing & _).
  assert (Hinit : Initialized mathProject = true) by (vm_compute; reflexivity).
  assert (Hnone : default [] (Exports mathProject !! "add.ts") = [])
    by (vm_compute; reflexivity).
  split_and!; [reflexivity|exact (Hfresh eq_refl)|exact Hinit|exact Hnone|
               exact (Hmissing Hinit Hnone)].
Defined.

(** ** Generated tests and the scan for candidates *)

Lemma DefaultTestPath_beside tsPath framework :
  ∃ ext, (ext = ".spec.ts" ∨ ext = ".test.ts")
         ∧ DefaultTestPath tsPath framework ""
           = TrimSuffix tsPath (Ext tsPath) +:+ ext.
Proof.
  unfold DefaultTestPath. simpl.
  destruct (String.eqb framework "vitest"); eauto.
Qed.

(** X16: the test path chosen beside a source (no output directory) is
    never taken for a source: the scan of the project drops it, the
    indexer passes over it, and once a file exists there the source has a
    test and is no candidate any more. *)
Theorem default_test_path_is_no_source (tsPath framework : string) :
  keepsMatch (DefaultTestPath tsPath framework "") = false
  ∧ skipsFile (DefaultTestPath tsPath framework "") = true
  ∧ ∀ stat, stat (DefaultTestPath tsPath framework "") = true →
      HasTest stat tsPath = true
      ∧ ∀ changedOnly changed all candidates,
          FindCandidates stat changedOnly changed all = inr candidates →
          tsPath ∉ candidates.
Proof.
  destruct (DefaultTestPath_beside tsPath framework) as (ext & Hext & ->).
  assert (Hmark : Contains (TrimSuffix tsPath (Ext tsPath) +:+ ext) ".test."
                  || Contains (TrimSuffix tsPath (Ext tsPath) +:+ ext) ".spec." = true).
  { destruct Hext as [-> | ->].
    - rewrite (Contains_append_r _ ".spec.ts" ".spec.") by reflexivity.
      apply orb_true_r.
    - by rewrite (Contains_append_r _ ".test.ts" ".test.") by reflexivity. }
  split_and!.
  - unfold keepsMatch. rewrite Hmark. simpl. by rewrite andb_false_r.
  - unfold skipsFile. rewrite <- !orb_assoc. rewrite Hmark. by rewrite !orb_true_r.
  - intros stat Hstat.
    assert (Hhas : HasTest stat tsPath = true).
    { unfold HasTest. simpl. destruct Hext as [-> | ->]; rewrite Hstat;
        by rewrite ?orb_true_r. }
    split; [done|].
    intros changedOnly changed all candidates Hfind Hin.
    unfold FindCandidates in Hfind.
    destruct (if changedOnly then _ else _) as [err|scanned]; [done|].
    injection Hfind as <-.
    apply list_elem_of_filter in Hin as [Hno _]. congruence.
Qed.

Lemma default_test_path_is_no_source_witness :
  String.eqb "src/add.spec.ts" (DefaultTestPath "src/add.ts" "vitest" "") = true
  ∧ HasTest (String.eqb "src/add.spec.ts") "src/add.ts" = true
  ∧ FindCandidates (String.eqb "src/add.spec.ts") false (inl "not a git repository")
      (inr ["src/add.ts"; "src/sub.ts"]) = inr ["src/sub.ts"]
  ∧ "src/add.ts" ∉ ["src/sub.ts"].
Proof.
  assert (Hstat : String.eqb "src/add.spec.ts" (DefaultTestPath "src/add.ts" "vitest" "") = true)
    by reflexivity.
  assert (Hfind : FindCandidates (String.eqb "src/add.spec.ts") false
                    (inl "not a git repository") (inr ["src/add.ts"; "src/sub.ts"])
                  = inr ["src/sub.ts"]) by reflexivity.
  destruct (default_test_path_is_no_source "src/add.ts" "vitest") as (_ & _ & H).
  destruct (H _ Hstat) as [Hhas Hcand].
  split_and!; [exact Hstat|exact Hhas|exact Hfind|exact (Hcand _ _ _ _ Hfind)].
Defined.

(** ** The worker pool: results and progress *)

Lemma countPhases_cons P ph phs :
  countPhases P (ph :: phs) = (if P ph then 1 else 0) + countPhases P phs.
Proof.
  unfold countPhases. destruct (P ph) eqn:E.
  - by rewrite filter_cons_True.
  - rewrite filter_cons_False; [done|]. by rewrite E.
Qed.

Lemma countPhases_insert P phs i ph ph' :
  phs !! i = Some ph →
  countPhases P (<[i := ph']> phs) + (if P ph then 1 else 0)
  = countPhases P phs + (if P ph' then 1 else 0).
Proof.
  revert i. induction phs as [|ph0 phs IH]; intros [|i] Hi; simpl in *; try done.
  - injection Hi as ->. rewrite !countPhases_cons. lia.
  - rewrite !countPhases_cons. specialize (IH i Hi). lia.
Qed.

Lemma countPhases_all P phs :
  Forall (λ ph, P ph = true) phs → countPhases P phs = length phs.
Proof.
  induction 1 as [|ph phs Hph _ IH]; [done|].
  rewrite countPhases_cons, Hph, IH. done.
Qed.

Lemma countPhases_none P phs :
  Forall (λ ph, P ph = false) phs → countPhases P phs = 0.
Proof.
  induction 1 as [|ph phs Hph _ IH]; [done|].
  rewrite countPhases_cons, Hph, IH. done.
Qed.

Lemma slotsHeld_positive phs :
  0 < slotsHeld phs → ∃ j ph, phs !! j = Some ph ∧ holdsSlot ph = true.
Proof.
  induction phs as [|ph0 phs IH]; [unfold slotsHeld; simpl; lia|].
  rewrite slotsHeld_cons. destruct (holdsSlot ph0) eqn:E.
  - intros _. by exists 0, ph0.
  - intros H. destruct IH as (j & ph & Hj & Hph); [simpl in H; lia|].
    by exists (S j), ph.
Qed.

Lemma reportedItems_cons ph phs wi wq :
  reportedItems (ph :: phs) (wi :: wq)
  = (if hasReported ph then [wi] else []) ++ reportedItems phs wq.
Proof.
  unfold reportedItems.
  change (zip (ph :: phs) (wi :: wq)) with ((ph, wi) :: zip phs wq).
  destruct (hasReported ph) eqn:E.
  - by rewrite filter_cons_True.
  - rewrite filter_cons_False; [done|]. simpl. by rewrite E.
Qed.

Lemma reportedItems_nil_r phs : reportedItems phs [] = [].
Proof. by destruct phs. Qed.

Lemma reportedItems_insert_same phs wq i ph ph' :
  phs !! i = Some ph → hasReported ph' = hasReported ph →
  reportedItems (<[i := ph']> phs) wq = reportedItems phs wq.
Proof.
  revert wq i. induction phs as [|ph0 phs IH]; intros wq [|i] Hi Hsame;
    simpl in *; try done.
  - injection Hi as ->. destruct wq as [|wi wq]; [done|].
    by rewrite !reportedItems_cons, Hsame.
  - destruct wq as [|wi wq]; [by rewrite !reportedItems_nil_r|].
    by rewrite !reportedItems_cons, (IH wq i).
Qed.

Lemma reportedItems_insert_new phs wq i ph ph' wi :
  phs !! i = Some ph → wq !! i = Some wi →
  hasReported ph = false → hasReported ph' = true →
  ∃ l1 l2, reportedItems phs wq = l1 ++ l2
           ∧ reportedItems (<[i := ph']> phs) wq = l1 ++ wi :: l2.
Proof.
  revert wq i. induction phs as [|ph0 phs IH]; intros [|wi0 wq] [|i] Hi Hwi Hold Hnew;
    simpl in *; try done.
  - injection Hi as ->. injection Hwi as ->.
    rewrite !reportedItems_cons, Hold, Hnew.
    by exists [], (reportedItems phs wq).
  - destruct (IH wq i Hi Hwi Hold Hnew) as (l1 & l2 & E1 & E2).
    rewrite !reportedItems_cons, E1, E2.
    exists ((if hasReported ph0 then [wi0] else []) ++ l1), l2.
    by rewrite <- !app_assoc.
Qed.

Lemma reportedItems_all phs wq :
  Forall (λ ph, ph = Finished) phs → length phs = length wq →
  reportedItems phs wq = wq.
Proof.
  intros Hall. revert wq. induction Hall as [|ph phs -> _ IH]; intros [|wi wq] Hlen;
    simpl in *; try done.
  rewrite reportedItems_cons. simpl. rewrite IH; [done|lia].
Qed.

Lemma reportedItems_started wq : reportedItems (map (λ _, Waiting) wq) wq = [].
Proof.
  induction wq as [|wi wq IH]; [done|].
  simpl. by rewrite reportedItems_cons.
Qed.

Section WorkerPoolResults.

Variable maxWorkers : nat.
Variable framework out : string.
Variable workQueue : list workItem.

#[local] Abbreviation step := (step maxWorkers framework out workQueue).
#[local] Abbreviation reachable := (reachable maxWorkers framework out workQueue).

Lemma resultOf_from wi generated :
  wi ∈ workQueue → resultFrom framework out workQueue (resultOf framework out wi generated).
Proof. intros Hin. exists wi. by destruct generated. Qed.

Lemma reachable_results s :
  reachable s →
  length (results s) = countPhases hasReported (phases s)
  ∧ Forall (resultFrom framework out workQueue) (results s).
Proof.
  induction 1 as [|s s' _ [IHlen IHfrom] Hstep].
  - simpl. split; [|constructor].
    symmetry. apply countPhases_none, Forall_fmap, Forall_true. done.
  - destruct Hstep as [s i Hi Hfree|s i wi generated Hi Hwi|s i Hi]; simpl.
    + pose proof (countPhases_insert hasReported _ i _ Generating Hi) as Hc.
      simpl in Hc. split; [lia|done].
    + pose proof (countPhases_insert hasReported _ i _ Sent Hi) as Hc.
      simpl in Hc. split.
      * rewrite length_app. simpl. lia.
      * apply Forall_app. split; [done|].
        constructor; [|constructor].
        apply resultOf_from. by eapply list_elem_of_lookup_2.
    + pose proof (countPhases_insert hasReported _ i _ Finished Hi) as Hc.
      simpl in Hc. split; [lia|done].
Qed.

(** The results in the channel are, in some order, one for each item whose
    unit has sent, each the result that unit makes of its item. *)
Lemma reachable_reported s :
  reachable s →
  ∃ rs, rs ≡ₚ results s
        ∧ Forall2 (madeFrom framework out) (reportedItems (phases s) workQueue) rs.
Proof.
  induction 1 as [|s s' _ (rs & Hperm & Hmade) Hstep].
  - exists []. simpl. rewrite reportedItems_started. split; constructor.
  - destruct Hstep as [s i Hi Hfree|s i wi generated Hi Hwi|s i Hi]; simpl.
    + rewrite (reportedItems_insert_same _ _ i Waiting Generating Hi eq_refl).
      by exists rs.
    + destruct (reportedItems_insert_new _ _ i Generating Sent wi Hi Hwi eq_refl eq_refl)
        as (l1 & l2 & E1 & E2).
      rewrite E1 in Hmade.
      apply Forall2_app_inv_l in Hmade as (k1 & k2 & H1 & H2 & ->).
      rewrite E2. exists (k1 ++ resultOf framework out wi generated :: k2). split.
      * rewrite <- Hperm, <- Permutation_middle. apply Permutation_cons_append.
      * apply Forall2_app; [done|]. constructor; [by exists generated|done].
    + rewrite (reportedItems_insert_same _ _ i Sent Finished Hi eq_refl).
      by exists rs.
Qed.

(** X17: in every state the pool can reach, the results in the channel are
    as many as the units that have sent one, each is made from an item of
    the queue (its source path, and the test path chosen for it), and they
    are, in some order, exactly one result for each item whose unit has
    sent: the result that unit makes of its item.  When every unit is past
    its release the results are as many as the items, the semaphore is
    empty, and the results are, in some order, exactly one for each item of
    the queue, made of that item. *)
Theorem pool_one_result_per_unit (s : pool) :
  reachable s →
  length (results s) = countPhases hasReported (phases s)
  ∧ Forall (resultFrom framework out workQueue) (results s)
  ∧ (∃ rs, rs ≡ₚ results s
           ∧ Forall2 (madeFrom framework out) (reportedItems (phases s) workQueue) rs)
  ∧ (Forall (λ ph, ph = Finished) (phases s) →
       length (results s) = length workQueue ∧ semaphore s = 0
       ∧ ∃ rs, rs ≡ₚ results s ∧ Forall2 (madeFrom framework out) workQueue rs).
Proof.
  intros Hreach.
  destruct (reachable_results s Hreach) as [Hlen Hfrom].
  destruct (reachable_reported s Hreach) as (rs & Hperm & Hmade).
  destruct (reachable_inv maxWorkers framework out workQueue s Hreach)
    as (Hsem & _ & Hqueue).
  split_and!; [done..|by exists rs|].
  intros Hall. split_and!.
  - rewrite Hlen, <- Hqueue. apply countPhases_all.
    eapply Forall_impl; [exact Hall|]. by intros ph ->.
  - rewrite Hsem. unfold midFlight.
    apply (countPhases_none holdsSlot).
    eapply Forall_impl; [exact Hall|]. by intros ph ->.
  - exists rs. split; [done|]. by rewrite (reportedItems_all _ _ Hall Hqueue) in Hmade.
Qed.

(** X18: with a limit of at least one the pool cannot get stuck: from every
    state it can reach in which some unit is not yet past its release, some
    unit can take a step, so that [wg.Wait()] is not left waiting for
    ever by the semaphore. *)
Theorem pool_progress (s : pool) (i : nat) (ph : phase) :
  1 ≤ maxWorkers → reachable s →
  phases s !! i = Some ph → ph ≠ Finished →
  ∃ s', step s s'.
Proof.
  intros Hlimit Hreach Hi Hph.
  destruct (reachable_inv maxWorkers framework out workQueue s Hreach)
    as (Hsem & Hcap & Hqueue).
  assert (Hsend : ∀ j, phases s !! j = Some Generating → ∃ s', step s s').
  { intros j Hj.
    assert (is_Some (workQueue !! j)) as [wi Hwi].
    { apply lookup_lt_is_Some. rewrite <- Hqueue. by eapply lookup_lt_Some. }
    eexists. by apply (step_send _ _ _ _ s j wi (inl "")). }
  destruct (Nat.eq_dec (slotsHeld (phases s)) 0) as [Hnone|Hsome].
  - destruct ph; [|by apply (Hsend i)| |done].
    + eexists. apply (step_acquire _ _ _ _ s i Hi). unfold midFlight in Hsem. lia.
    + eexists. by apply (step_release _ _ _ _ s i).
  - destruct (slotsHeld_positive (phases s)) as (j & ph' & Hj & Hholds); [lia|].
    destruct ph'; try done.
    + by apply (Hsend j).
    + eexists. by apply (step_release _ _ _ _ s j).
Qed.

End WorkerPoolResults.

Lemma allFinished_reachable : reachable 2 "vitest" "" threeItems allFinished.
Proof.
  pose (item := λ p c, mkItem p c).
  apply (reach_step 2 "vitest" "" threeItems
           (mkPool [Finished; Finished; Sent] 1 (results allFinished))).
  2: { apply (step_release 2 "vitest" "" threeItems
                (mkPool [Finished; Finished; Sent] 1 (results allFinished)) 2).
       reflexivity. }
  apply (reach_step 2 "vitest" "" threeItems
           (mkPool [Finished; Finished; Generating] 1 (take 2 (results allFinished)))).
  2: { apply (step_send 2 "vitest" "" threeItems
                (mkPool [Finished; Finished; Generating] 1 (take 2 (results allFinished)))
                2 (mkItem "src/c.ts" "export function c() {}") (inr "test of c"));
         reflexivity. }
  apply (reach_step 2 "vitest" "" threeItems
           (mkPool [Finished; Finished; Waiting] 0 (take 2 (results allFinished)))).
  2: { apply (step_acquire 2 "vitest" "" threeItems
                (mkPool [Finished; Finished; Waiting] 0 (take 2 (results allFinished))) 2);
         simpl; [reflexivity|lia]. }
  apply (reach_step 2 "vitest" "" threeItems
           (mkPool [Sent; Finished; Waiting] 1 (take 2 (results allFinished)))).
  2: { apply (step_release 2 "vitest" "" threeItems
                (mkPool [Sent; Finished; Waiting] 1 (take 2 (results allFinished))) 0).
       reflexivity. }
  apply (reach_step 2 "vitest" "" threeItems
           (mkPool [Sent; Sent; Waiting] 2 (take 2 (results allFinished)))).
  2: { apply (step_release 2 "vitest" "" threeItems
                (mkPool [Sent; Sent; Waiting] 2 (take 2 (results allFinished))) 1).
       reflexivity. }
  apply (reach_step 2 "vitest" "" threeItems
           (mkPool [Generating; Sent; Waiting] 2 (take 1 (results allFinished)))).
  2: { apply (step_send 2 "vitest" "" threeItems
                (mkPool [Generating; Sent; Waiting] 2 (take 1 (results allFinished)))
                0 (mkItem "src/a.ts" "export function a() {}")
                (inl "auggie CLI failed: exit status 1")); reflexivity. }
  apply (reach_step 2 "vitest" "" threeItems twoGenerating).
  2: { apply (step_send 2 "vitest" "" threeItems twoGenerating
                1 (mkItem "src/b.ts" "export function b() {}") (inr "test of b"));
         reflexivity. }
  apply (reach_step 2 "vitest" "" threeItems oneOfThree).
  2: { apply (step_acquire 2 "vitest" "" threeItems oneOfThree 1);
         simpl; [reflexivity|lia]. }
  apply (reach_step 2 "vitest" "" threeItems (started threeItems)).
  2: { apply (step_acquire 2 "vitest" "" threeItems (started threeItems) 0);
         simpl; [reflexivity|lia]. }
  apply reach_start.
Defined.

Lemma pool_one_result_per_unit_witness :
  reachable 2 "vitest" "" threeItems allFinished
  ∧ Forall (λ ph, ph = Finished) (phases allFinished)
  ∧ length (results allFinished) = length threeItems
  ∧ semaphore allFinished = 0
  ∧ ∃ rs, rs ≡ₚ results allFinished ∧ Forall2 (madeFrom "vitest" "") threeItems rs.
Proof.
  destruct (pool_one_result_per_unit 2 "vitest" "" threeItems allFinished
              allFinished_reachable) as (_ & _ & _ & Hdone).
  assert (Hall : Forall (λ ph, ph = Finished) (phases allFinished))
    by (repeat constructor).
  destruct (Hdone Hall) as (Hlen & Hsem & Hone).
  split_and!; [exact allFinished_reachable|exact Hall|exact Hlen|exact Hsem|exact Hone].
Defined.

Lemma pool_progress_witness :
  1 ≤ 2 ∧ reachable 2 "vitest" "" threeItems twoOfThree
  ∧ phases twoOfThree !! 2 = Some Waiting ∧ Waiting ≠ Finished
  ∧ ∃ s', step 2 "vitest" "" threeItems twoOfThree s'.
Proof.
  assert (H1 : 1 ≤ 2) by lia.
  assert (Hph : phases twoOfThree !! 2 = Some Waiting) by reflexivity.
  assert (Hne : Waiting ≠ Finished) by discriminate.
  split_and!; [exact H1|exact twoOfThree_reachable|exact Hph|exact Hne|].
  exact (pool_progress 2 "vitest" "" threeItems twoOfThree 2 Waiting
           H1 twoOfThree_reachable Hph Hne).
Defined.

(** Without a slot to give out, no unit ever starts: the reason [main]
    refuses a limit below one. *)
Example pool_stuck_without_slots s' :
  ¬ step 0 "vitest" "" threeItems (started threeItems) s'.
Proof.
  intros Hstep.
  inversion Hstep as [s i Hi Hfree|s i wi generated Hi Hwi|s i Hi]; subst; simpl in *.
  - lia.
  - destruct i as [|[|[|i]]]; simpl in *; done.
  - destruct i as [|[|[|i]]]; simpl in *; done.
Qed.

(** ** Framework detection *)

(** ** Framework detection *)

(** X19: a detected framework is [vitest] or [jest]; [vitest] wins
    whenever the manifest names it, whatever else is named; and when the
    manifest names neither, the lockfiles count only if [pnpm-lock.yaml]
    exists: without it the detection fails whatever [yarn.lock] and
    [package-lock.json] hold. *)
Theorem DetectFramework_answers (pkg : manifest) (locks : lockfiles) :
  (∀ fw, DetectFramework pkg locks = inr fw → fw = "vitest" ∨ fw = "jest")
  ∧ (∀ dev deps, pkg = Manifest dev deps →
       "vitest" ∈ default ∅ dev ∪ default ∅ deps →
       DetectFramework pkg locks = inr "vitest")
  ∧ (∀ dev deps, pkg = Manifest dev deps →
       "vitest" ∉ default ∅ dev ∪ default ∅ deps →
       "jest" ∉ default ∅ dev ∪ default ∅ deps →
       pnpmFound locks = false →
       DetectFramework pkg locks = inl errNoFramework).
Proof.
  split_and!.
  - intros fw. unfold DetectFramework. destruct pkg as [err|err|dev deps]; [done..|].
    simpl.
    repeat match goal with
           | |- context [if ?b then _ else _] => destruct b
           end; intros [= <-]; auto.
  - intros dev deps -> [Hin|Hin]%elem_of_union; simpl.
    + by rewrite (bool_decide_eq_true_2 _ Hin).
    + rewrite (bool_decide_eq_true_2 _ Hin). by rewrite orb_true_r.
  - intros dev deps -> Hv Hj Hpnpm. simpl.
    rewrite not_elem_of_union in Hv. rewrite not_elem_of_union in Hj.
    destruct Hv as [Hv1 Hv2]. destruct Hj as [Hj1 Hj2].
    rewrite !bool_decide_eq_false_2 by done. simpl. by rewrite Hpnpm.
Qed.

Lemma DetectFramework_answers_witness :
("vitest" ∉ default (∅ : gset string) (Some ∅) ∪ default ∅ None)
  ∧ ("jest" ∉ default (∅ : gset string) (Some ∅) ∪ default ∅ None)
  ∧ pnpmFound yarnOnly = false
  ∧ hasFrameworkInLockfile yarnOnly "jest" = true
  ∧ DetectFramework bareManifest yarnOnly = inl errNoFramework.
Proof.
  assert (Hv : "vitest" ∉ default (∅ : gset string) (Some ∅) ∪ default ∅ None)
    by (simpl; intros [H|H]%elem_of_union; by apply elem_of_empty in H).
  assert (Hj : "jest" ∉ default (∅ : gset string) (Some ∅) ∪ default ∅ None)
    by (simpl; intros [H|H]%elem_of_union; by apply elem_of_empty in H).
  destruct (DetectFramework_answers bareManifest yarnOnly) as (_ & _ & Hfail).
  split_and!; [exact Hv|exact Hj|reflexivity|reflexivity|].
  exact (Hfail (Some ∅) None eq_refl Hv Hj eq_refl).
Defined.

(** ** Rendering the local analysis *)

(** X20: what is rendered from the local analysis of a text is the same
    under every order the ranges over the scenario inputs may take: the
    scenarios of the local analysis have no inputs to range over. *)
Theorem local_analysis_renders_one_text (ord1 ord2 : range_order value)
    (tsPath code framework projectRoot : string) :
  fair ord1 → fair ord2 →
  GenerateTestWithAugment CommandFails ord1 tsPath code framework projectRoot
  = GenerateTestWithAugment CommandFails ord2 tsPath code framework projectRoot
  ∧ Forall (λ scenario, ts_Inputs scenario = ∅)
           (an_TestScenarios (analyzeBasic tsPath code)).
Proof.
  intros H1 H2. split.
  - unfold GenerateTestWithAugment. simpl.
    destruct (length (map toExported (extractExports code)) =? 0); [done|].
    f_equal. by apply local_rendering_deterministic.
  - simpl. apply Forall_concat, Forall_fmap, Forall_fmap, Forall_true.
    intros sym. unfold generateBasicScenarios. simpl.
    destruct (isAsync sym); repeat constructor.
Qed.

Lemma local_analysis_renders_one_text_witness :
  fair (@ascending value) ∧ fair (@descending value)
  ∧ GenerateTestWithAugment CommandFails ascending "add.ts" add_ts "vitest" "."
    = GenerateTestWithAugment CommandFails descending "add.ts" add_ts "vitest" ".".
Proof.
  split_and!; [apply fair_ascending|apply fair_descending|].
  exact (proj1 (local_analysis_renders_one_text ascending descending
                  "add.ts" add_ts "vitest" "." fair_ascending fair_descending)).
Defined.
